(** * CoinbaseRelay: the socket.io / Coinbase WebSocket relay of [ws-socket.ts]

    A shallow embedding of the [CoinbaseRelay] class: its two subscription
    maps, the upstream WebSocket handle with its reconnect counter, and the
    handlers registered on the socket.io server and on the WebSocket.

    Handlers are written in a small monad that threads the relay object,
    collects the observable effects (messages sent upstream, events emitted
    to sockets, timers scheduled) and propagates JavaScript exceptions.
    Of the logging only [console.error] is kept as an effect; [console.log]
    lines are left out.  [JSON.parse] is a parameter of the message listener. *)

From Stdlib Require Import ZArith SpecFloat.
From stdpp Require Import base gmap strings list fin_maps.

Local Open Scope string_scope.
Local Open Scope Z_scope.
Local Open Scope list_scope.

#[local] Set Warnings "-clear-no-such-hyp".

(** ** JavaScript values *)

(** What [JSON.parse] can return, plus [undefined] (the result of reading a
    property that is not there).  Numbers are IEEE doubles. *)
#[warnings="-register-all"]
Inductive JSValue : Type :=
| JUndefined
| JNull
| JBool (b : bool)
| JNum (x : spec_float)
| JStr (s : string)
| JArr (items : list JSValue)
| JObj (props : list (string * JSValue)).

(** ToBoolean. *)
Definition truthy (v : JSValue) : bool :=
  match v with
  | JUndefined | JNull => false
  | JBool b => b
  | JNum (S754_zero _) | JNum S754_nan => false
  | JNum _ => true
  | JStr s => negb (bool_decide (s = ""))
  | JArr _ | JObj _ => true
  end.

(** [v === "s"] for a string literal. *)
Definition strict_eq_str (v : JSValue) (s : string) : bool :=
  match v with
  | JStr s' => bool_decide (s' = s)
  | _ => false
  end.

(** Own property of an object literal: the first binding of the key. *)
Fixpoint own_property (props : list (string * JSValue)) (key : string) : JSValue :=
  match props with
  | [] => JUndefined
  | (k, v) :: rest => if decide (k = key) then v else own_property rest key
  end.

(** ** JavaScript [Set<string>]: insertion ordered, without duplicates *)

Module JSSet.
Abbreviation t := (list string).

Definition new : t := [].
Definition has (x : string) (s : t) : bool := bool_decide (x ∈ s).
Definition add (x : string) (s : t) : t := if decide (x ∈ s) then s else s ++ [x].
Definition delete (x : string) (s : t) : t := filter (λ y, y ≠ x) s.
Definition size (s : t) : Z := Z.of_nat (length s).
End JSSet.

(** ** The relay object *)

Inductive ReadyState : Type := CONNECTING | OPEN | CLOSING | CLOSED.

#[global] Instance ReadyState_eq_dec : EqDecision ReadyState.
Proof. solve_decision. Defined.

Record WebSocket : Type := mkWebSocket {
  url : string;
  readyState : ReadyState
}.

#[global] Instance WebSocket_eq_dec : EqDecision WebSocket.
Proof. solve_decision. Defined.

(** The fields of [class CoinbaseRelay].  Of [this.io] only
    [io.sockets.sockets] matters: the ids of the sockets that are connected. *)
Record CoinbaseRelay : Type := mkRelay {
  io_sockets : gset string;
  coinbaseWs : option WebSocket;
  reconnectAttempts : Z;
  subscriptions : gmap string JSSet.t;        (* Map<productId, Set<socketId>> *)
  socketSubscriptions : gmap string JSSet.t   (* Map<socketId, Set<productId>> *)
}.

Definition maxReconnectAttempts : Z := 5.
Definition reconnectDelay : Z := 5000.

Definition with_io_sockets (f : gset string → gset string) (r : CoinbaseRelay) :=
  mkRelay (f (io_sockets r)) (coinbaseWs r) (reconnectAttempts r)
          (subscriptions r) (socketSubscriptions r).
Definition with_coinbaseWs (f : option WebSocket → option WebSocket) (r : CoinbaseRelay) :=
  mkRelay (io_sockets r) (f (coinbaseWs r)) (reconnectAttempts r)
          (subscriptions r) (socketSubscriptions r).
Definition with_reconnectAttempts (f : Z → Z) (r : CoinbaseRelay) :=
  mkRelay (io_sockets r) (coinbaseWs r) (f (reconnectAttempts r))
          (subscriptions r) (socketSubscriptions r).
Definition with_subscriptions
    (f : gmap string JSSet.t → gmap string JSSet.t) (r : CoinbaseRelay) :=
  mkRelay (io_sockets r) (coinbaseWs r) (reconnectAttempts r)
          (f (subscriptions r)) (socketSubscriptions r).
Definition with_socketSubscriptions
    (f : gmap string JSSet.t → gmap string JSSet.t) (r : CoinbaseRelay) :=
  mkRelay (io_sockets r) (coinbaseWs r) (reconnectAttempts r)
          (subscriptions r) (f (socketSubscriptions r)).

(** ** Observable effects *)

(** The object literal handed to [JSON.stringify] before [coinbaseWs.send]. *)
Record UpstreamMsg : Type := mkUpstreamMsg {
  msg_type : string;
  product_ids : list string;
  channels : list string
}.

#[global] Instance UpstreamMsg_eq_dec : EqDecision UpstreamMsg.
Proof. solve_decision. Defined.

Inductive Effect : Type :=
| WsNew (address : string)                                   (* new WebSocket(address) *)
| WsSend (msg : UpstreamMsg)                                 (* coinbaseWs.send(JSON.stringify(msg)) *)
| SocketEmit (socketId event : string) (payload : JSValue)   (* socket.emit(event, payload) *)
| IoEmit (event : string) (payload : JSValue)                (* io.emit(event, payload) *)
| SetTimeout (delay : Z)                                     (* setTimeout(reconnect, delay) *)
| ConsoleError (err : string).                               (* console.error in a handler *)

(** ** The handler monad: relay state, effect log, exceptions *)

Inductive Outcome (A : Type) : Type :=
| Return (a : A)
| Throw (err : string).
Arguments Return {A} a.
Arguments Throw {A} err.

Definition M (A : Type) : Type :=
  CoinbaseRelay → Outcome A * CoinbaseRelay * list Effect.

#[global] Instance M_ret : MRet M := λ A a r, (Return a, r, []).

#[global] Instance M_bind : MBind M := λ A B k m r,
  match m r with
  | (Return a, r1, e1) =>
      match k a r1 with
      | (o, r2, e2) => (o, r2, e1 ++ e2)
      end
  | (Throw err, r1, e1) => (Throw err, r1, e1)
  end.

Definition throw {A : Type} (err : string) : M A := λ r, (Throw err, r, []).
Definition gets {A : Type} (f : CoinbaseRelay → A) : M A := λ r, (Return (f r), r, []).
Definition modify (f : CoinbaseRelay → CoinbaseRelay) : M unit := λ r, (Return tt, f r, []).
Definition perform (e : Effect) : M unit := λ r, (Return tt, r, [e]).

(** [try { body } catch (err) { handler(err) }]: what the body did before it
    threw stays done. *)
Definition try_catch {A : Type} (body : M A) (handler : string → M A) : M A := λ r,
  match body r with
  | (Return a, r1, e1) => (Return a, r1, e1)
  | (Throw err, r1, e1) =>
      match handler err r1 with
      | (o, r2, e2) => (o, r2, e1 ++ e2)
      end
  end.

Definition when (b : bool) (m : M unit) : M unit := if b then m else mret tt.

(** [xs.forEach(f)] over an array or over the elements of a set. *)
Fixpoint forEach {A : Type} (xs : list A) (f : A → M unit) : M unit :=
  match xs with
  | [] => mret tt
  | x :: rest => f x ;; forEach rest f
  end.

Definition outcome {A : Type} (res : Outcome A * CoinbaseRelay * list Effect) : Outcome A :=
  res.1.1.
Definition final {A : Type} (res : Outcome A * CoinbaseRelay * list Effect) : CoinbaseRelay :=
  res.1.2.
Definition effects {A : Type} (res : Outcome A * CoinbaseRelay * list Effect) : list Effect :=
  res.2.

(** ** The registry: [addSubscription], [removeSubscription] *)

Definition addSubscription (socketId productId : string) : M unit :=
  (* Add to subscriptions map *)
  known ← gets (λ r, bool_decide (is_Some (subscriptions r !! productId)));
  when (negb known)
    (modify (with_subscriptions (<[productId := JSSet.new]>)));;
  modify (with_subscriptions (alter (JSSet.add socketId) productId));;
  (* Add to socket subscriptions map *)
  known ← gets (λ r, bool_decide (is_Some (socketSubscriptions r !! socketId)));
  when (negb known)
    (modify (with_socketSubscriptions (<[socketId := JSSet.new]>)));;
  modify (with_socketSubscriptions (alter (JSSet.add productId) socketId)).

Definition removeSubscription (socketId productId : string) : M unit :=
  (* Remove from subscriptions map *)
  known ← gets (λ r, bool_decide (is_Some (subscriptions r !! productId)));
  when known
    (modify (with_subscriptions (alter (JSSet.delete socketId) productId));;
     subscribers ← gets (λ r, default JSSet.new (subscriptions r !! productId));
     when (bool_decide (JSSet.size subscribers = 0))
       (modify (with_subscriptions (delete productId))));;
  (* Remove from socket subscriptions map *)
  known ← gets (λ r, bool_decide (is_Some (socketSubscriptions r !! socketId)));
  when known
    (modify (with_socketSubscriptions (alter (JSSet.delete productId) socketId));;
     products ← gets (λ r, default JSSet.new (socketSubscriptions r !! socketId));
     when (bool_decide (JSSet.size products = 0))
       (modify (with_socketSubscriptions (delete socketId)))).

(** ** Talking to Coinbase *)

(** [this.coinbaseWs?.readyState === WebSocket.OPEN] *)
Definition coinbase_open (r : CoinbaseRelay) : bool :=
  match coinbaseWs r with
  | Some ws => bool_decide (readyState ws = OPEN)
  | None => false
  end.

Definition subscribe_msg (productId : string) : UpstreamMsg :=
  {| msg_type := "subscribe"; product_ids := [productId]; channels := ["ticker"] |}.

Definition unsubscribe_msg (productId : string) : UpstreamMsg :=
  {| msg_type := "unsubscribe"; product_ids := [productId]; channels := ["ticker"] |}.

Definition subscribeToCoinbase (productId : string) : M unit :=
  is_open ← gets coinbase_open;
  if negb is_open then (mret tt : M unit)
  else perform (WsSend (subscribe_msg productId)).

(** [!subscriptions.has(p) || subscriptions.get(p)?.size === 0] *)
Definition no_subscribers (productId : string) (r : CoinbaseRelay) : bool :=
  match subscriptions r !! productId with
  | None => true
  | Some subscribers => bool_decide (JSSet.size subscribers = 0)
  end.

Definition unsubscribeFromCoinbase (productId : string) : M unit :=
  hasNoSubscribers ← gets (no_subscribers productId);
  is_open ← gets coinbase_open;
  when (hasNoSubscribers && is_open)
    (perform (WsSend (unsubscribe_msg productId))).

Definition cleanupClient (socketId : string) : M unit :=
  productIds ← gets (λ r, default JSSet.new (socketSubscriptions r !! socketId));
  (* Remove the client from all product subscriptions *)
  forEach productIds (λ productId,
    removeSubscription socketId productId;;
    (* Check if we need to unsubscribe from Coinbase *)
    gone ← gets (no_subscribers productId);
    when gone (unsubscribeFromCoinbase productId));;
  (* Clean up the socket's subscription record *)
  modify (with_socketSubscriptions (delete socketId)).

(** ** The upstream connection *)

Definition coinbase_url : string := "wss://ws-feed.exchange.coinbase.com".

Definition status_connected (b : bool) : JSValue := JObj [("connected", JBool b)].
Definition status_error (message : string) : JSValue :=
  JObj [("connected", JBool false); ("error", JStr message)].

Definition initializeCoinbaseWebSocket : M unit :=
  is_open ← gets coinbase_open;
  if (is_open : bool) then (mret tt : M unit)
  else
    perform (WsNew coinbase_url);;
    modify (with_coinbaseWs (λ _, Some (mkWebSocket coinbase_url CONNECTING))).

(** The callback handed to [setTimeout] by the close handler. *)
Definition reconnect_timer : M unit :=
  modify (with_reconnectAttempts (λ n, n + 1));;
  initializeCoinbaseWebSocket.

Definition on_ws_open : M unit :=
  modify (with_reconnectAttempts (λ _, 0));;
  perform (IoEmit "coinbase-status" (status_connected true)).

Definition on_ws_error (message : string) : M unit :=
  perform (ConsoleError message);;
  perform (IoEmit "coinbase-status" (status_error message)).

Definition on_ws_close : M unit :=
  perform (IoEmit "coinbase-status" (status_connected false));;
  attempts ← gets reconnectAttempts;
  when (bool_decide (attempts < maxReconnectAttempts))
    (let delay := reconnectDelay * 2 ^ attempts in
     perform (SetTimeout delay)).

(** ** Inbound Coinbase messages *)

(** [v.key] for the keys the handlers read ([type], [product_id], [channels],
    [product_ids]): reading a property of [null] or [undefined] throws, an
    object gives its own property, and strings, numbers, booleans and arrays
    have no property of these names. *)
Definition get_property (v : JSValue) (key : string) : M JSValue :=
  match v with
  | JUndefined | JNull => throw "TypeError: cannot read properties of null"
  | JObj props => mret (own_property props key)
  | _ => mret JUndefined
  end.

(** [map.get(key)] when [key] is any JavaScript value: the keys of both maps
    are strings, so only a string can be found. *)
Definition map_get (m : gmap string (list string)) (key : JSValue) : option (list string) :=
  match key with
  | JStr k => m !! k
  | _ => None
  end.

(** [this.io.sockets.sockets.get(socketId)?.emit(event, payload)] *)
Definition emit_to (socketId event : string) (payload : JSValue) : M unit :=
  connected ← gets (λ r, bool_decide (socketId ∈ io_sockets r));
  when connected (perform (SocketEmit socketId event payload)).

(** [if (subscribers?.size) subscribers.forEach(id => sockets.get(id)?.emit(...))] *)
Definition emit_to_subscribers
    (subscribers : option (list string)) (event : string) (payload : JSValue) : M unit :=
  match subscribers with
  | Some ids =>
      when (negb (bool_decide (JSSet.size ids = 0)))
        (forEach ids (λ socketId, emit_to socketId event payload))
  | None => mret tt
  end.

Definition handleTickerMessage (message : JSValue) : M unit :=
  product_id ← get_property message "product_id";
  if negb (truthy product_id) then (mret tt : M unit)
  else
    subscribers ← gets (λ r, map_get (subscriptions r) product_id);
    emit_to_subscribers subscribers "ticker" message.

(** One step of [Array.prototype.flatMap]: an array result is spliced in,
    anything else is kept as one element. *)
Definition flatten_one (v : JSValue) : list JSValue :=
  match v with
  | JArr items => items
  | _ => [v]
  end.

(** [channels.flatMap(channel => channel.product_ids || [])] on an array. *)
Fixpoint flatMap_product_ids (items : list JSValue) : M (list JSValue) :=
  match items with
  | [] => mret []
  | channel :: rest =>
      ids ← get_property channel "product_ids";
      more ← flatMap_product_ids rest;
      mret (flatten_one (if truthy ids then ids else JArr []) ++ more)
  end.

Definition handleSubscriptionMessage (message : JSValue) : M unit :=
  channels ← get_property message "channels";
  if negb (truthy channels) then (mret tt : M unit)
  else
    productIds ← match channels with
                 | JArr items => flatMap_product_ids items
                 | _ => throw "TypeError: message.channels.flatMap is not a function"
                 end;
    forEach productIds (λ productId,
      subscribers ← gets (λ r, map_get (subscriptions r) productId);
      emit_to_subscribers subscribers "subscription-confirmed" message).

(** ** Socket.io handlers *)

Definition connection_status (coinbaseConnected : bool) : JSValue :=
  JObj [("connected", JBool true); ("coinbaseConnected", JBool coinbaseConnected)].

Definition on_connection (socketId : string) : M unit :=
  is_open ← gets coinbase_open;
  perform (SocketEmit socketId "connection-status" (connection_status is_open)).

Definition on_subscribe (socketId productId : string) : M unit :=
  addSubscription socketId productId;;
  subscribeToCoinbase productId.

Definition on_unsubscribe (socketId productId : string) : M unit :=
  removeSubscription socketId productId;;
  unsubscribeFromCoinbase productId.

Definition on_disconnect (socketId : string) : M unit :=
  cleanupClient socketId.

(** ** The registry operations as a script *)

Inductive RegistryOp : Type :=
| OpAdd (socketId productId : string)
| OpRemove (socketId productId : string)
| OpCleanup (socketId : string).

Definition registry_op (op : RegistryOp) : M unit :=
  match op with
  | OpAdd socketId productId => addSubscription socketId productId
  | OpRemove socketId productId => removeSubscription socketId productId
  | OpCleanup socketId => cleanupClient socketId
  end.

(** The relay as the field initialisers leave it, before the constructor body. *)
Definition fresh : CoinbaseRelay :=
  {| io_sockets := ∅; coinbaseWs := None; reconnectAttempts := 0;
     subscriptions := ∅; socketSubscriptions := ∅ |}.

(** The constructor: handlers are registered, the first connection is opened. *)
Definition constructor : M unit := initializeCoinbaseWebSocket.

Definition initial : CoinbaseRelay := final (constructor fresh).

(** The relay after a script of registry operations, each run to its end. *)
Definition after_ops (ops : list RegistryOp) (r : CoinbaseRelay) : CoinbaseRelay :=
  foldl (λ r op, final (registry_op op r)) r ops.

(** Membership in the two maps, a missing key standing for the empty set. *)
Definition subscribersOf (r : CoinbaseRelay) (productId : string) : list string :=
  default [] (subscriptions r !! productId).
Definition productsOf (r : CoinbaseRelay) (socketId : string) : list string :=
  default [] (socketSubscriptions r !! socketId).

(** The library's part of a WebSocket event: the current socket changes state
    before its listener runs. *)
Definition set_readyState (s : ReadyState) : M unit :=
  modify (with_coinbaseWs (fmap (λ ws, mkWebSocket (url ws) s))).

(** One reconnect round: the socket closes and the timer it set fires. *)
Definition close_then_timer : M unit :=
  set_readyState CLOSED;; on_ws_close;; reconnect_timer.

(** The delays handed to [setTimeout]. *)
Definition scheduled (es : list Effect) : list Z :=
  omap (λ e, match e with SetTimeout d => Some d | _ => None end) es.

(** The relay after [n] reconnect rounds, with the delays scheduled on the way. *)
Fixpoint rounds (n : nat) (r : CoinbaseRelay) : CoinbaseRelay * list Z :=
  match n with
  | O => (r, [])
  | S n' =>
      let res := close_then_timer r in
      let '(r', ds) := rounds n' (final res) in
      (r', scheduled (effects res) ++ ds)
  end.

Section Relay.

(** [JSON.parse], with [None] for a [SyntaxError]. *)
Variable JSON_parse : string → option JSValue.

(** The body of the [try] block of the message listener. *)
Definition message_body (data : string) : M unit :=
  parsed ← match JSON_parse data with
           | Some v => mret v
           | None => throw "SyntaxError"
           end;
  type ← get_property parsed "type";
  is_ticker ← (if strict_eq_str type "ticker"
               then product_id ← get_property parsed "product_id";
                    mret (truthy product_id)
               else mret false);
  if (is_ticker : bool) then handleTickerMessage parsed
  else
    type ← get_property parsed "type";
    if strict_eq_str type "subscriptions"
    then handleSubscriptionMessage parsed
    else mret tt.

Definition on_ws_message (data : string) : M unit :=
  try_catch (message_body data) (λ err, perform (ConsoleError err)).

(** ** The relay as an event system *)

Inductive Event : Type :=
| Connection (socketId : string)
| Subscribe (socketId productId : string)
| Unsubscribe (socketId productId : string)
| Disconnect (socketId : string)
| WsOpen
| WsMessage (data : string)
| WsError (message : string)
| WsClose
| Timer.

(** Socket.io adds a socket to [io.sockets.sockets] before the connection
    listener runs and takes it out before the disconnect listener runs. *)
Definition dispatch (ev : Event) : M unit :=
  match ev with
  | Connection socketId =>
      modify (with_io_sockets (λ s, {[socketId]} ∪ s));; on_connection socketId
  | Subscribe socketId productId => on_subscribe socketId productId
  | Unsubscribe socketId productId => on_unsubscribe socketId productId
  | Disconnect socketId =>
      modify (with_io_sockets (λ s, s ∖ {[socketId]}));; on_disconnect socketId
  | WsOpen => set_readyState OPEN;; on_ws_open
  | WsMessage data => on_ws_message data
  | WsError message => on_ws_error message
  | WsClose => set_readyState CLOSED;; on_ws_close
  | Timer => reconnect_timer
  end.

(** A socket id is given to one connection at a time, and only a connected
    socket delivers requests. *)
Definition enabled (r : CoinbaseRelay) (ev : Event) : Prop :=
  match ev with
  | Connection socketId => socketId ∉ io_sockets r
  | Subscribe socketId _ | Unsubscribe socketId _ | Disconnect socketId =>
      socketId ∈ io_sockets r
  | _ => True
  end.

Inductive reachable : CoinbaseRelay → Prop :=
| reachable_initial : reachable initial
| reachable_step r ev :
    reachable r → enabled r ev → reachable (final (dispatch ev r)).

End Relay.

(** ** Vocabulary of the statements *)

(** The result of a computation that ran after the effects [es]. *)
Definition prepend {B : Type} (es : list Effect)
    (res : Outcome B * CoinbaseRelay * list Effect) : Outcome B * CoinbaseRelay * list Effect :=
  (res.1.1, res.1.2, es ++ res.2).

(** What [removeSubscription] does to one of the two maps. *)
Definition remove_from (x k : string) (m : gmap string (list string)) :
    gmap string (list string) :=
  match m !! k with
  | None => m
  | Some l =>
      if decide (JSSet.delete x l = []) then delete k m
      else <[k := JSSet.delete x l]> m
  end.

(** No key of the map holds the empty set. *)
Definition no_empty_sets (m : gmap string (list string)) : Prop :=
  ∀ k l, m !! k = Some l → l ≠ [].

(** Every list in the map stands for a set: it has no duplicates. *)
Definition sets_NoDup (m : gmap string (list string)) : Prop :=
  ∀ k l, m !! k = Some l → NoDup l.

(** The two maps mirror each other. *)
Definition symmetric (r : CoinbaseRelay) : Prop :=
  ∀ socketId productId,
    socketId ∈ subscribersOf r productId ↔ productId ∈ productsOf r socketId.

(** No key of either map holds an empty set. *)
Definition no_empty_entries (r : CoinbaseRelay) : Prop :=
  no_empty_sets (subscriptions r) ∧ no_empty_sets (socketSubscriptions r).

(** The lists that stand for sets have no duplicates. *)
Definition well_formed (r : CoinbaseRelay) : Prop :=
  sets_NoDup (subscriptions r) ∧ sets_NoDup (socketSubscriptions r).

(** The relay [removeSubscription] leaves behind. *)
Definition dropped (socketId productId : string) (r : CoinbaseRelay) : CoinbaseRelay :=
  mkRelay (io_sockets r) (coinbaseWs r) (reconnectAttempts r)
    (remove_from socketId productId (subscriptions r))
    (remove_from productId socketId (socketSubscriptions r)).

(** What one round of the loop of [cleanupClient] sends. *)
Definition round_sends (productId : string) (r : CoinbaseRelay) : list Effect :=
  if no_subscribers productId r && coinbase_open r
  then [WsSend (unsubscribe_msg productId)] else [].

(** What the whole loop sends, from relay [r] on. *)
Fixpoint loop_sends (socketId : string) (productIds : list string) (r : CoinbaseRelay) :
    list Effect :=
  match productIds with
  | [] => []
  | productId :: rest =>
      round_sends productId (dropped socketId productId r)
        ++ loop_sends socketId rest (dropped socketId productId r)
  end.

(** The relay the loop of [cleanupClient] leaves behind. *)
Definition dropped_all (socketId : string) (productIds : list string) (r : CoinbaseRelay) :
    CoinbaseRelay :=
  foldl (λ r productId, dropped socketId productId r) r productIds.

(** A relay with two connected clients, an open upstream socket and no
    subscription yet. *)
Definition two_clients_open : CoinbaseRelay :=
  {| io_sockets := {["A"; "B"]};
     coinbaseWs := Some (mkWebSocket coinbase_url OPEN);
     reconnectAttempts := 0;
     subscriptions := ∅;
     socketSubscriptions := ∅ |}.

(** Clients A and B both subscribed to BTC-USD, upstream socket open. *)
Definition both_subscribed : CoinbaseRelay :=
  final (on_subscribe "B" "BTC-USD" (final (on_subscribe "A" "BTC-USD" two_clients_open))).

(** Client A follows BTC-USD and ETH-USD, client B follows ETH-USD. *)
Definition shared_interest : CoinbaseRelay :=
  after_ops [OpAdd "A" "BTC-USD"; OpAdd "A" "ETH-USD"; OpAdd "B" "ETH-USD"] two_clients_open.

(** [quiet m]: [m] keeps the relay as it is and has no effect; it may throw. *)
Definition quiet {A : Type} (m : M A) : Prop :=
  ∀ r, ∃ o, m r = (o, r, []).

(** [total m]: [m] keeps the relay as it is and returns. *)
Definition total {A : Type} (m : M A) : Prop :=
  ∀ r, ∃ a es, m r = (Return a, r, es).

(** [contained m]: [m] keeps the relay as it is, and when it throws it has had
    no effect. *)
Definition contained {A : Type} (m : M A) : Prop :=
  ∀ r, (∃ a es, m r = (Return a, r, es)) ∨ (∃ err, m r = (Throw err, r, [])).

(** The events [emit_to_subscribers] delivers: one for each subscriber that is
    still connected. *)
Definition deliveries (event : string) (payload : JSValue) (r : CoinbaseRelay)
    (ids : list string) : list Effect :=
  (λ id, SocketEmit id event payload) <$> filter (λ id, id ∈ io_sockets r) ids.

(** Every registered subscriber is a connected socket. *)
Definition subscribers_connected (r : CoinbaseRelay) : Prop :=
  ∀ productId socketId, socketId ∈ subscribersOf r productId → socketId ∈ io_sockets r.

(** What holds of every relay the event system can reach. *)
Definition relay_inv (r : CoinbaseRelay) : Prop :=
  symmetric r ∧ well_formed r ∧ subscribers_connected r.

(** The part of the relay the invariants talk about. *)
Definition same_registry (r r' : CoinbaseRelay) : Prop :=
  io_sockets r' = io_sockets r ∧
  subscriptions r' = subscriptions r ∧
  socketSubscriptions r' = socketSubscriptions r.

(** The double quote character. *)
Definition dquote : string :=
  String (Ascii.Ascii false true false false false true false false) "".

(** A JSON string literal (of a text that needs no escaping). *)
Definition quoted (s : string) : string := dquote +:+ s +:+ dquote.

(** The text of a JSON object with string values. *)
Fixpoint fields_text (fields : list (string * string)) : string :=
  match fields with
  | [] => ""
  | [(k, v)] => quoted k +:+ ":" +:+ quoted v
  | (k, v) :: rest => quoted k +:+ ":" +:+ quoted v +:+ "," +:+ fields_text rest
  end.

(** The wire text and the parsed value of a flat JSON object. *)
Definition object_text (fields : list (string * string)) : string :=
  "{" +:+ fields_text fields +:+ "}".

Definition object_value (fields : list (string * string)) : JSValue :=
  JObj (prod_map id JStr <$> fields).

(** Two sample tickers, one with and one without a [product_id]. *)
Definition eth_ticker : list (string * string) :=
  [("type", "ticker"); ("product_id", "ETH-USD"); ("price", "2500.10")].
Definition anonymous_ticker : list (string * string) :=
  [("type", "ticker"); ("price", "2500.10")].

(** [JSON.parse] on the sample texts; every other text is taken as malformed. *)
Definition sample_parse (data : string) : option JSValue :=
  if decide (data = object_text eth_ticker) then Some (object_value eth_ticker)
  else if decide (data = object_text anonymous_ticker) then Some (object_value anonymous_ticker)
  else if decide (data = "null") then Some JNull
  else None.

(** Client A connects and subscribes to ETH-USD, client B connects and
    subscribes to BTC-USD, and the upstream socket opens. *)
Definition sample_run : list Event :=
  [Connection "A"; Subscribe "A" "ETH-USD"; Connection "B"; Subscribe "B" "BTC-USD"; WsOpen].

(** The relay after a list of events, each handled to its end. *)
Definition after_events (JSON_parse : string → option JSValue)
    (evs : list Event) (r : CoinbaseRelay) : CoinbaseRelay :=
  foldl (λ r ev, final (dispatch JSON_parse ev r)) r evs.

(** ** The message listener of the JavaScript build ([server.js]) *)

(** [if (subscribers && subscribers.size > 0) subscribers.forEach(...)] *)
Definition emit_if_nonempty_js
    (subscribers : option (list string)) (event : string) (payload : JSValue) : M unit :=
  match subscribers with
  | Some ids =>
      when (bool_decide (0 < JSSet.size ids))
        (forEach ids (λ socketId, emit_to socketId event payload))
  | None => mret tt
  end.

(** [if (subscribers) subscribers.forEach(...)] *)
Definition emit_if_present_js
    (subscribers : option (list string)) (event : string) (payload : JSValue) : M unit :=
  match subscribers with
  | Some ids => forEach ids (λ socketId, emit_to socketId event payload)
  | None => mret tt
  end.

Section RelayJs.

Variable JSON_parse : string → option JSValue.

(** The [try] block of the listener in [server.js]: both branches are written
    out in place, and [parsed.channels] is used without a test. *)
Definition message_body_js (data : string) : M unit :=
  parsed ← match JSON_parse data with
           | Some v => mret v
           | None => throw "SyntaxError"
           end;
  type ← get_property parsed "type";
  is_ticker ← (if strict_eq_str type "ticker"
               then product_id ← get_property parsed "product_id";
                    mret (truthy product_id)
               else mret false);
  if (is_ticker : bool) then
    product_id ← get_property parsed "product_id";
    subscribers ← gets (λ r, map_get (subscriptions r) product_id);
    emit_if_nonempty_js subscribers "ticker" parsed
  else
    type ← get_property parsed "type";
    if strict_eq_str type "subscriptions" then
      channels ← get_property parsed "channels";
      productIds ← match channels with
                   | JArr items => flatMap_product_ids items
                   | JUndefined | JNull =>
                       throw "TypeError: cannot read properties of undefined"
                   | _ => throw "TypeError: parsed.channels.flatMap is not a function"
                   end;
      forEach productIds (λ productId,
        subscribers ← gets (λ r, map_get (subscriptions r) productId);
        emit_if_present_js subscribers "subscription-confirmed" parsed)
    else mret tt.

Definition on_ws_message_js (data : string) : M unit :=
  try_catch (message_body_js data) (λ err, perform (ConsoleError err)).

End RelayJs.

(** ** More vocabulary *)

(** [confined Q m]: [m] keeps the relay as it is, and each of its effects
    satisfies [Q]. *)
Definition confined {A : Type} (Q : CoinbaseRelay → Effect → Prop) (m : M A) : Prop :=
  ∀ r, ∃ o es, m r = (o, r, es) ∧ Forall (Q r) es.

(** An event emitted to a connected socket that subscribes to some symbol. *)
Definition to_subscriber (event : string) (payload : JSValue)
    (r : CoinbaseRelay) (e : Effect) : Prop :=
  ∃ socketId productId,
    e = SocketEmit socketId event payload ∧
    socketId ∈ io_sockets r ∧ socketId ∈ subscribersOf r productId.

(** What a listener may emit for the parsed message [payload]. *)
Definition relayed (payload : JSValue) (r : CoinbaseRelay) (e : Effect) : Prop :=
  to_subscriber "ticker" payload r e ∨ to_subscriber "subscription-confirmed" payload r e.

(** The events one lookup in [subscriptions] leads to. *)
Definition route (key : JSValue) (event : string) (payload : JSValue)
    (r : CoinbaseRelay) : list Effect :=
  deliveries event payload r (default [] (map_get (subscriptions r) key)).

(** A channel entry of an acknowledgement that lists the symbols [ids]. *)
Definition ack_channel (channel : JSValue) (ids : list string) : Prop :=
  ∃ props, channel = JObj props ∧ own_property props "product_ids" = JArr (JStr <$> ids).

(** A message of type [subscriptions] whose [channels] is missing or falsy. *)
Definition ack_without_channels (parsed : option JSValue) : bool :=
  match parsed with
  | Some (JObj props) =>
      strict_eq_str (own_property props "type") "subscriptions"
        && negb (truthy (own_property props "channels"))
  | _ => false
  end.

(** An effect with the text of a logged error left out. *)
Definition erase_log (e : Effect) : Effect :=
  match e with
  | ConsoleError _ => ConsoleError ""
  | _ => e
  end.

(** A sample acknowledgement for ETH-USD and BTC-USD on the ticker channel. *)
Definition ack_text : string :=
  "{" +:+ quoted "type" +:+ ":" +:+ quoted "subscriptions" +:+ "," +:+
  quoted "channels" +:+ ":[{" +:+ quoted "name" +:+ ":" +:+ quoted "ticker" +:+ "," +:+
  quoted "product_ids" +:+ ":[" +:+ quoted "ETH-USD" +:+ "," +:+ quoted "BTC-USD" +:+ "]}]}".

Definition ack_value : JSValue :=
  JObj [("type", JStr "subscriptions");
        ("channels",
         JArr [JObj [("name", JStr "ticker");
                     ("product_ids", JArr [JStr "ETH-USD"; JStr "BTC-USD"])]])].

(** An acknowledgement that names no channels at all. *)
Definition bare_ack : list (string * string) := [("type", "subscriptions")].

(** A message of a type the relay does not know. *)
Definition heartbeat : list (string * string) :=
  [("type", "heartbeat"); ("product_id", "ETH-USD")].

(** [sample_parse] with the acknowledgements and the heartbeat added. *)
Definition sample_parse_ack (data : string) : option JSValue :=
  if decide (data = ack_text) then Some ack_value
  else if decide (data = object_text bare_ack) then Some (object_value bare_ack)
  else if decide (data = object_text heartbeat) then Some (object_value heartbeat)
  else sample_parse data.

(** ** Laws of the handler monad *)

Section MonadLaws.
Context {A B : Type}.
Implicit Types (k : A → M B) (r : CoinbaseRelay).

Lemma prepend_nil (res : Outcome B * CoinbaseRelay * list Effect) : prepend [] res = res.
Proof. by destruct res as [[??]?]. Qed.

Lemma bind_ret (a : A) k r : (mret a ≫= k) r = k a r.
Proof. unfold mbind, M_bind, mret, M_ret. by destruct (k a r) as [[??]?]. Qed.

Lemma bind_gets (f : CoinbaseRelay → A) k r : (gets f ≫= k) r = k (f r) r.
Proof. unfold mbind, M_bind, gets. by destruct (k (f r) r) as [[??]?]. Qed.

Lemma bind_throw err k r : (throw err ≫= k) r = (Throw err, r, []).
Proof. reflexivity. Qed.

Lemma bind_run (m : M A) k r a r1 e1 :
  m r = (Return a, r1, e1) → (m ≫= k) r = prepend e1 (k a r1).
Proof.
  intros Hm. unfold mbind, M_bind, prepend. rewrite Hm.
  by destruct (k a r1) as [[??]?].
Qed.

Lemma bind_run_throw (m : M A) k r err r1 e1 :
  m r = (Throw err, r1, e1) → (m ≫= k) r = (Throw err, r1, e1).
Proof. intros Hm. unfold mbind, M_bind. by rewrite Hm. Qed.
End MonadLaws.

Section MonadLawsUnit.
Context {B : Type}.
Implicit Types (k : unit → M B) (r : CoinbaseRelay).

Lemma bind_modify f k r : (modify f ≫= k) r = k tt (f r).
Proof. unfold mbind, M_bind, modify. by destruct (k tt (f r)) as [[??]?]. Qed.

Lemma bind_perform e k r : (perform e ≫= k) r = prepend [e] (k tt r).
Proof. by apply bind_run. Qed.

Lemma bind_when (b : bool) (m : M unit) k r :
  (when b m ≫= k) r = if b then (m ≫= k) r else k tt r.
Proof. destruct b; [done|]. apply bind_ret. Qed.
End MonadLawsUnit.

Lemma bind_assoc {A B C : Type} (m : M A) (k : A → M B) (h : B → M C) r :
  ((m ≫= k) ≫= h) r = (m ≫= (λ a, k a ≫= h)) r.
Proof.
  unfold mbind, M_bind. destruct (m r) as [[[a|err] r1] e1]; [|done].
  destruct (k a r1) as [[[b|err] r2] e2]; [|done].
  destruct (h b r2) as [[o r3] e3]. by rewrite app_assoc.
Qed.

Lemma run_modify f r : modify f r = (Return tt, f r, []).
Proof. reflexivity. Qed.

Lemma run_perform e r : perform e r = (Return tt, r, [e]).
Proof. reflexivity. Qed.

Lemma run_when (b : bool) (m : M unit) r :
  when b m r = if b then m r else (Return tt, r, []).
Proof. by destruct b. Qed.

(** Push a computation one step through its binds. *)
Ltac mstep :=
  repeat first
    [ rewrite bind_assoc | rewrite bind_gets | rewrite bind_modify
    | rewrite bind_ret | rewrite bind_when | rewrite bind_perform
    | rewrite bind_throw | rewrite run_modify | rewrite run_when
    | rewrite run_perform | rewrite prepend_nil ];
  cbn [with_io_sockets with_coinbaseWs with_reconnectAttempts with_subscriptions
       with_socketSubscriptions io_sockets coinbaseWs reconnectAttempts
       subscriptions socketSubscriptions].

(** ** The pure content of the registry operations *)

Lemma size_zero (l : list string) : JSSet.size l = 0 ↔ l = [].
Proof. unfold JSSet.size. destruct l; simpl; split; intros; (done || lia). Qed.

Lemma alter_lookup_Some (f : list string → list string) k l
    (m : gmap string (list string)) :
  m !! k = Some l → alter f k m = <[k := f l]> m.
Proof.
  intros Hk. apply map_eq; intros i.
  rewrite lookup_alter, lookup_insert. case_decide; [|done]. by rewrite Hk.
Qed.

Lemma addSubscription_spec s p r :
  addSubscription s p r =
    (Return tt,
     mkRelay (io_sockets r) (coinbaseWs r) (reconnectAttempts r)
       (<[p := JSSet.add s (subscribersOf r p)]> (subscriptions r))
       (<[s := JSSet.add p (productsOf r s)]> (socketSubscriptions r)),
     []).
Proof.
  unfold addSubscription, subscribersOf, productsOf.
  destruct (subscriptions r !! p) as [l|] eqn:Hp;
    destruct (socketSubscriptions r !! s) as [l'|] eqn:Hs;
    mstep; rewrite ?Hp, ?Hs; mstep; simpl; mstep; rewrite ?Hs; simpl; mstep;
    f_equal; f_equal; unfold with_socketSubscriptions, with_subscriptions; simpl;
    f_equal;
    first [ by apply alter_lookup_Some | by rewrite alter_insert_eq ].
Qed.

Lemma delete_alter_same (f : list string → list string) k
    (m : gmap string (list string)) :
  delete k (alter f k m) = delete k m.
Proof.
  apply map_eq; intros i. rewrite !lookup_delete. case_decide; [done|].
  by rewrite lookup_alter_ne.
Qed.

Lemma removeSubscription_spec s p r :
  removeSubscription s p r =
    (Return tt,
     mkRelay (io_sockets r) (coinbaseWs r) (reconnectAttempts r)
       (remove_from s p (subscriptions r))
       (remove_from p s (socketSubscriptions r)),
     []).
Proof.
  unfold removeSubscription, remove_from.
  destruct (subscriptions r !! p) as [l|] eqn:Hp;
    destruct (socketSubscriptions r !! s) as [l'|] eqn:Hs;
    mstep; rewrite ?Hp, ?Hs; mstep; simpl; mstep;
    rewrite ?lookup_alter_eq, ?Hp, ?Hs; simpl;
    rewrite ?(bool_decide_ext _ _ (size_zero _));
    repeat case_bool_decide; repeat case_decide; try done;
    unfold with_socketSubscriptions, with_subscriptions; simpl;
    rewrite ?delete_alter_same, ?(alter_lookup_Some _ _ _ _ Hp),
      ?(alter_lookup_Some _ _ _ _ Hs); try done.
  by destruct r.
Qed.

(** ** Sets and maps of sets *)

Lemma elem_of_JSSet_add x y (l : list string) : y ∈ JSSet.add x l ↔ y = x ∨ y ∈ l.
Proof.
  unfold JSSet.add. case_decide.
  - split; [by right | intros [->|?]; done].
  - rewrite elem_of_app, list_elem_of_singleton. tauto.
Qed.

Lemma elem_of_JSSet_delete x y (l : list string) : y ∈ JSSet.delete x l ↔ y ∈ l ∧ y ≠ x.
Proof. unfold JSSet.delete. rewrite list_elem_of_filter. tauto. Qed.

Lemma JSSet_add_nonempty x (l : list string) : JSSet.add x l ≠ [].
Proof.
  intros Hnil. assert (x ∈ JSSet.add x l) as Hin by (apply elem_of_JSSet_add; by left).
  rewrite Hnil in Hin. by apply not_elem_of_nil in Hin.
Qed.

Lemma NoDup_JSSet_add x (l : list string) : NoDup l → NoDup (JSSet.add x l).
Proof.
  intros Hl. unfold JSSet.add. case_decide; [done|].
  apply NoDup_app. split_and!; [done| |apply NoDup_singleton].
  intros y Hy ->%list_elem_of_singleton. done.
Qed.

Lemma NoDup_JSSet_delete x (l : list string) : NoDup l → NoDup (JSSet.delete x l).
Proof. apply NoDup_filter. Qed.

Section MapsOfSets.
Implicit Types (m : gmap string (list string)) (x y k : string).

Lemma lookup_remove_from_ne x k k' m : k ≠ k' → remove_from x k m !! k' = m !! k'.
Proof.
  intros Hne. unfold remove_from. destruct (m !! k) as [l|]; [|done].
  case_decide; [by rewrite lookup_delete_ne | by rewrite lookup_insert_ne].
Qed.

Lemma lookup_remove_from_eq x k m :
  default [] (remove_from x k m !! k) = JSSet.delete x (default [] (m !! k)).
Proof.
  unfold remove_from. destruct (m !! k) as [l|] eqn:Hk; simpl.
  - case_decide as Hnil.
    + by rewrite lookup_delete_eq, Hnil.
    + by rewrite lookup_insert_eq.
  - by rewrite Hk.
Qed.

Lemma elem_of_remove_from y k' x k m :
  y ∈ default [] (remove_from x k m !! k') ↔
  y ∈ default [] (m !! k') ∧ ¬ (k' = k ∧ y = x).
Proof.
  destruct (decide (k = k')) as [<-|Hne].
  - rewrite lookup_remove_from_eq, elem_of_JSSet_delete. naive_solver.
  - rewrite lookup_remove_from_ne by done. naive_solver.
Qed.

Lemma elem_of_insert_add y k' x k m :
  y ∈ default [] (<[k := JSSet.add x (default [] (m !! k))]> m !! k') ↔
  (k' = k ∧ y = x) ∨ y ∈ default [] (m !! k').
Proof.
  rewrite lookup_insert. case_decide as Hk; simpl.
  - subst k'. rewrite elem_of_JSSet_add. naive_solver.
  - naive_solver.
Qed.

Lemma elem_of_delete_key y k' k m :
  y ∈ default [] (delete k m !! k') ↔ k' ≠ k ∧ y ∈ default [] (m !! k').
Proof.
  rewrite lookup_delete. case_decide as Hk; simpl.
  - subst. split; [by intros ?%not_elem_of_nil | naive_solver].
  - naive_solver.
Qed.

Lemma no_empty_sets_insert_add x k m :
  no_empty_sets m → no_empty_sets (<[k := JSSet.add x (default [] (m !! k))]> m).
Proof.
  intros Hm k' l [[<- <-]|[? Hl]]%lookup_insert_Some.
  - apply JSSet_add_nonempty.
  - by eapply Hm.
Qed.

Lemma no_empty_sets_remove_from x k m :
  no_empty_sets m → no_empty_sets (remove_from x k m).
Proof.
  intros Hm k' l. unfold remove_from. destruct (m !! k) as [l0|] eqn:Hk.
  - case_decide as Hnil.
    + intros [? Hl]%lookup_delete_Some. by eapply Hm.
    + intros [[<- <-]|[? Hl]]%lookup_insert_Some; [done | by eapply Hm].
  - apply Hm.
Qed.

Lemma no_empty_sets_delete k m : no_empty_sets m → no_empty_sets (delete k m).
Proof. intros Hm k' l [? Hl]%lookup_delete_Some. by eapply Hm. Qed.

Lemma sets_NoDup_insert_add x k m :
  sets_NoDup m → sets_NoDup (<[k := JSSet.add x (default [] (m !! k))]> m).
Proof.
  intros Hm k' l [[<- <-]|[? Hl]]%lookup_insert_Some; [|by eapply Hm].
  apply NoDup_JSSet_add. destruct (m !! k) as [l0|] eqn:Hk; simpl.
  - by eapply Hm.
  - apply NoDup_nil_2.
Qed.

Lemma sets_NoDup_remove_from x k m : sets_NoDup m → sets_NoDup (remove_from x k m).
Proof.
  intros Hm k' l. unfold remove_from. destruct (m !! k) as [l0|] eqn:Hk.
  - case_decide as Hnil.
    + intros [? Hl]%lookup_delete_Some. by eapply Hm.
    + intros [[<- <-]|[? Hl]]%lookup_insert_Some; [|by eapply Hm].
      apply NoDup_JSSet_delete. by eapply Hm.
  - apply Hm.
Qed.

Lemma sets_NoDup_delete k m : sets_NoDup m → sets_NoDup (delete k m).
Proof. intros Hm k' l [? Hl]%lookup_delete_Some. by eapply Hm. Qed.
End MapsOfSets.

(** ** Invariants of the registry *)

Lemma unsubscribeFromCoinbase_spec p r :
  unsubscribeFromCoinbase p r = (Return tt, r, round_sends p r).
Proof.
  unfold unsubscribeFromCoinbase, round_sends. mstep.
  by destruct (no_subscribers p r && coinbase_open r).
Qed.

Lemma subscribeToCoinbase_spec p r :
  subscribeToCoinbase p r =
    (Return tt, r, if coinbase_open r then [WsSend (subscribe_msg p)] else []).
Proof. unfold subscribeToCoinbase. mstep. by destruct (coinbase_open r). Qed.

Lemma cleanup_round_spec s p r :
  (removeSubscription s p;;
   gone ← gets (no_subscribers p);
   when gone (unsubscribeFromCoinbase p)) r =
  (Return tt, dropped s p r, round_sends p (dropped s p r)).
Proof.
  rewrite (bind_run _ _ _ _ _ _ (removeSubscription_spec s p r)), prepend_nil.
  fold (dropped s p r). mstep. rewrite unsubscribeFromCoinbase_spec.
  unfold round_sends. by destruct (no_subscribers p (dropped s p r)).
Qed.

Lemma cleanup_loop_spec s ps r :
  forEach ps (λ productId,
    removeSubscription s productId;;
    gone ← gets (no_subscribers productId);
    when gone (unsubscribeFromCoinbase productId)) r =
  (Return tt, dropped_all s ps r, loop_sends s ps r).
Proof.
  revert r. induction ps as [|p ps IH]; intros r; [done|].
  cbn [forEach]. rewrite (bind_run _ _ _ _ _ _ (cleanup_round_spec s p r)).
  rewrite IH. done.
Qed.

Lemma cleanupClient_spec s r :
  cleanupClient s r =
    (Return tt,
     with_socketSubscriptions (delete s) (dropped_all s (productsOf r s) r),
     loop_sends s (productsOf r s) r).
Proof.
  unfold cleanupClient. rewrite bind_gets.
  rewrite (bind_run _ _ _ _ _ _ (cleanup_loop_spec s _ r)).
  unfold prepend, productsOf. simpl. by rewrite app_nil_r.
Qed.

Lemma elem_of_subscribersOf_dropped y q s p r :
  y ∈ subscribersOf (dropped s p r) q ↔ y ∈ subscribersOf r q ∧ ¬ (q = p ∧ y = s).
Proof. apply elem_of_remove_from. Qed.

Lemma elem_of_productsOf_dropped q y s p r :
  q ∈ productsOf (dropped s p r) y ↔ q ∈ productsOf r y ∧ ¬ (y = s ∧ q = p).
Proof. apply elem_of_remove_from. Qed.

Lemma elem_of_subscribersOf_dropped_all y q s ps r :
  y ∈ subscribersOf (dropped_all s ps r) q ↔
  y ∈ subscribersOf r q ∧ ¬ (q ∈ ps ∧ y = s).
Proof.
  revert r. induction ps as [|p ps IH]; intros r; cbn [dropped_all foldl].
  - rewrite elem_of_nil. tauto.
  - fold (dropped_all s ps (dropped s p r)).
    rewrite IH, elem_of_subscribersOf_dropped, elem_of_cons. naive_solver.
Qed.

Lemma elem_of_productsOf_dropped_all q y s ps r :
  q ∈ productsOf (dropped_all s ps r) y ↔
  q ∈ productsOf r y ∧ ¬ (y = s ∧ q ∈ ps).
Proof.
  revert r. induction ps as [|p ps IH]; intros r; cbn [dropped_all foldl].
  - rewrite elem_of_nil. tauto.
  - fold (dropped_all s ps (dropped s p r)).
    rewrite IH, elem_of_productsOf_dropped, elem_of_cons. naive_solver.
Qed.

Lemma subscriptions_dropped_all_ne s ps r q :
  q ∉ ps → subscriptions (dropped_all s ps r) !! q = subscriptions r !! q.
Proof.
  revert r. induction ps as [|p ps IH]; intros r Hq; [done|].
  apply not_elem_of_cons in Hq as [Hne Hq]. cbn [dropped_all foldl].
  fold (dropped_all s ps (dropped s p r)). rewrite IH by done.
  by apply lookup_remove_from_ne.
Qed.

Lemma dropped_all_frame s ps r :
  io_sockets (dropped_all s ps r) = io_sockets r ∧
  coinbaseWs (dropped_all s ps r) = coinbaseWs r ∧
  reconnectAttempts (dropped_all s ps r) = reconnectAttempts r.
Proof.
  revert r. induction ps as [|p ps IH]; intros r; [done|].
  cbn [dropped_all foldl]. fold (dropped_all s ps (dropped s p r)).
  destruct (IH (dropped s p r)) as (-> & -> & ->). done.
Qed.

Lemma no_subscribers_dropped_all_ne s ps r q :
  q ∉ ps → no_subscribers q (dropped_all s ps r) = no_subscribers q r.
Proof. intros Hq. unfold no_subscribers. by rewrite subscriptions_dropped_all_ne. Qed.

Lemma well_formed_dropped s p r : well_formed r → well_formed (dropped s p r).
Proof. intros [??]. split; by apply sets_NoDup_remove_from. Qed.

Lemma well_formed_dropped_all s ps r : well_formed r → well_formed (dropped_all s ps r).
Proof.
  revert r. induction ps as [|p ps IH]; intros r Hr; [done|].
  apply IH. by apply well_formed_dropped.
Qed.

Lemma no_empty_entries_dropped_all s ps r :
  no_empty_entries r → no_empty_entries (dropped_all s ps r).
Proof.
  revert r. induction ps as [|p ps IH]; intros r Hr; [done|].
  apply IH. destruct Hr. split; by apply no_empty_sets_remove_from.
Qed.

(** With the connection open and no symbol listed twice, the loop sends one
    unsubscribe for each symbol that ends up without subscribers. *)
Lemma loop_sends_open s ps r :
  NoDup ps → coinbase_open r = true →
  loop_sends s ps r =
    (λ p, WsSend (unsubscribe_msg p)) <$>
      filter (λ p, no_subscribers p (dropped_all s ps r) = true) ps.
Proof.
  intros Hnd Hopen. revert r Hopen.
  induction Hnd as [|p ps Hp Hnd IH]; intros r Hopen; [done|].
  cbn [loop_sends dropped_all foldl]. fold (dropped_all s ps (dropped s p r)).
  rewrite IH by done. unfold round_sends.
  pose proof (no_subscribers_dropped_all_ne s ps (dropped s p r) p Hp) as Hsame.
  replace (coinbase_open (dropped s p r)) with true by done.
  rewrite andb_true_r, filter_cons. case_decide as Hgone.
  - by rewrite <- Hsame, Hgone.
  - rewrite <- Hsame. by destruct (no_subscribers p _).
Qed.

Lemma loop_sends_closed s ps r : coinbase_open r = false → loop_sends s ps r = [].
Proof.
  revert r. induction ps as [|p ps IH]; intros r Hopen; [done|].
  cbn [loop_sends]. rewrite IH by done. unfold round_sends.
  replace (coinbase_open (dropped s p r)) with false by done.
  by rewrite andb_false_r.
Qed.

(** *** Each operation keeps the invariants *)

Lemma subscribersOf_forgotten s r q :
  subscribersOf (with_socketSubscriptions (delete s) r) q = subscribersOf r q.
Proof. done. Qed.

Lemma elem_of_productsOf_forgotten q y s r :
  q ∈ productsOf (with_socketSubscriptions (delete s) r) y ↔ y ≠ s ∧ q ∈ productsOf r y.
Proof. apply elem_of_delete_key. Qed.

Lemma symmetric_registry_op op r : symmetric r → symmetric (final (registry_op op r)).
Proof.
  intros Hsym y q. destruct op as [s p|s p|s]; cbn [registry_op].
  - rewrite addSubscription_spec. unfold final, subscribersOf, productsOf; simpl.
    rewrite !elem_of_insert_add. specialize (Hsym y q).
    unfold subscribersOf, productsOf in Hsym. naive_solver.
  - rewrite removeSubscription_spec. unfold final; simpl. fold (dropped s p r).
    rewrite elem_of_subscribersOf_dropped, elem_of_productsOf_dropped.
    specialize (Hsym y q). naive_solver.
  - rewrite cleanupClient_spec. unfold final; simpl.
    rewrite subscribersOf_forgotten, elem_of_productsOf_forgotten.
    rewrite elem_of_subscribersOf_dropped_all, elem_of_productsOf_dropped_all.
    pose proof (Hsym y q) as Hyq. pose proof (Hsym s q) as Hsq.
    destruct (decide (y = s)) as [->|Hne]; naive_solver.
Qed.

Lemma no_empty_entries_registry_op op r :
  no_empty_entries r → no_empty_entries (final (registry_op op r)).
Proof.
  intros Hr. destruct op as [s p|s p|s]; cbn [registry_op].
  - rewrite addSubscription_spec. destruct Hr. split; by apply no_empty_sets_insert_add.
  - rewrite removeSubscription_spec. destruct Hr. split; by apply no_empty_sets_remove_from.
  - rewrite cleanupClient_spec.
    destruct (no_empty_entries_dropped_all s (productsOf r s) r Hr).
    split; [done|]. by apply no_empty_sets_delete.
Qed.

Lemma well_formed_registry_op op r : well_formed r → well_formed (final (registry_op op r)).
Proof.
  intros Hr. destruct op as [s p|s p|s]; cbn [registry_op].
  - rewrite addSubscription_spec. destruct Hr. split; by apply sets_NoDup_insert_add.
  - rewrite removeSubscription_spec. by apply well_formed_dropped.
  - rewrite cleanupClient_spec.
    destruct (well_formed_dropped_all s (productsOf r s) r Hr).
    split; [done|]. by apply sets_NoDup_delete.
Qed.

Lemma registry_op_returns op r : outcome (registry_op op r) = Return tt.
Proof.
  destruct op; cbn [registry_op];
    by rewrite ?addSubscription_spec, ?removeSubscription_spec, ?cleanupClient_spec.
Qed.

Lemma initial_maps_empty : subscriptions initial = ∅ ∧ socketSubscriptions initial = ∅.
Proof. done. Qed.

Lemma after_ops_snoc ops op r :
  after_ops (ops ++ [op]) r = final (registry_op op (after_ops ops r)).
Proof. unfold after_ops. by rewrite foldl_app. Qed.

(** C3: after any script of [addSubscription], [removeSubscription] and
    [cleanupClient] calls on a new relay, a socket id is in
    [subscriptions[productId]] exactly when the product id is in
    [socketSubscriptions[socketId]]. *)
Theorem registry_symmetry (ops : list RegistryOp) (socketId productId : string) :
  socketId ∈ subscribersOf (after_ops ops initial) productId ↔
  productId ∈ productsOf (after_ops ops initial) socketId.
Proof.
  revert socketId productId. change (symmetric (after_ops ops initial)).
  induction ops as [|op ops IH] using rev_ind.
  - intros s p. unfold subscribersOf, productsOf, after_ops. cbn [foldl].
    destruct initial_maps_empty as [-> ->]. rewrite !lookup_empty. simpl.
    rewrite !elem_of_nil. tauto.
  - rewrite after_ops_snoc. by apply symmetric_registry_op.
Qed.

(** C4: after any script of [addSubscription], [removeSubscription] and
    [cleanupClient] calls on a new relay, no key of [subscriptions] and no key
    of [socketSubscriptions] holds an empty set. *)
Theorem registry_no_empty_entries (ops : list RegistryOp) (key : string) :
  subscriptions (after_ops ops initial) !! key ≠ Some [] ∧
  socketSubscriptions (after_ops ops initial) !! key ≠ Some [].
Proof.
  assert (no_empty_entries (after_ops ops initial)) as [Hsub Hsock].
  { induction ops as [|op ops IH] using rev_ind.
    - unfold after_ops. cbn [foldl].
      split; intros k l;
        by rewrite ?(proj1 initial_maps_empty), ?(proj2 initial_maps_empty), lookup_empty.
    - rewrite after_ops_snoc. by apply no_empty_entries_registry_op. }
  split; intros Hk; [by eapply Hsub | by eapply Hsock].
Qed.

(** ** Subscribe and unsubscribe requests *)

Lemma on_subscribe_spec s p r :
  on_subscribe s p r =
    (Return tt, final (addSubscription s p r),
     if coinbase_open r then [WsSend (subscribe_msg p)] else []).
Proof.
  unfold on_subscribe. rewrite (bind_run _ _ _ _ _ _ (addSubscription_spec s p r)).
  rewrite prepend_nil, subscribeToCoinbase_spec, addSubscription_spec. done.
Qed.

Lemma on_unsubscribe_spec s p r :
  on_unsubscribe s p r = (Return tt, dropped s p r, round_sends p (dropped s p r)).
Proof.
  unfold on_unsubscribe. rewrite (bind_run _ _ _ _ _ _ (removeSubscription_spec s p r)).
  by rewrite prepend_nil, unsubscribeFromCoinbase_spec.
Qed.

Lemma no_subscribers_true p r : no_subscribers p r = true ↔ subscribersOf r p = [].
Proof.
  unfold no_subscribers, subscribersOf. destruct (subscriptions r !! p) as [l|]; simpl.
  - by rewrite bool_decide_eq_true, size_zero.
  - done.
Qed.

(** C1, as stated, fails: with the upstream socket open, client A subscribes
    to BTC-USD and then client B does; B's request sends a second upstream
    subscribe message instead of none. *)
Lemma second_subscriber_sends_again :
  let first := on_subscribe "A" "BTC-USD" two_clients_open in
  let second := on_subscribe "B" "BTC-USD" (final first) in
  "A" ≠ "B" ∧ coinbase_open two_clients_open = true ∧
  effects first = [WsSend (subscribe_msg "BTC-USD")] ∧
  effects second = [WsSend (subscribe_msg "BTC-USD")] ∧
  effects second ≠ [].
Proof.
  cbv zeta. rewrite !on_subscribe_spec. unfold effects, final; simpl.
  rewrite addSubscription_spec. simpl. done.
Qed.

(** C1, amended: with the upstream socket open, every subscribe request sends
    exactly one upstream subscribe message for its symbol, whether or not the
    symbol already has a subscriber; so A's request sends one and B's
    following request sends one more. *)
Theorem subscribe_always_forwarded (r : CoinbaseRelay) (A B s : string) :
  coinbase_open r = true →
  let first := on_subscribe A s r in
  let second := on_subscribe B s (final first) in
  outcome first = Return tt ∧ effects first = [WsSend (subscribe_msg s)] ∧
  outcome second = Return tt ∧ effects second = [WsSend (subscribe_msg s)].
Proof.
  intros Hopen. cbv zeta. rewrite !on_subscribe_spec. unfold outcome, effects, final; simpl.
  rewrite addSubscription_spec. simpl.
  unfold coinbase_open in *. simpl. by rewrite Hopen.
Qed.

Lemma subscribe_always_forwarded_witness :
  coinbase_open two_clients_open = true ∧
  effects (on_subscribe "B" "BTC-USD" (final (on_subscribe "A" "BTC-USD" two_clients_open)))
    = [WsSend (subscribe_msg "BTC-USD")].
Proof.
  split; [reflexivity|].
  apply (subscribe_always_forwarded two_clients_open "A" "B" "BTC-USD"). reflexivity.
Defined.

(** C5: a symbol has exactly the two subscribers A and B and the upstream
    socket is open; A's unsubscribe request sends nothing upstream, and B's
    unsubscribe request after it sends exactly one unsubscribe message for
    the symbol. *)
Theorem last_unsubscribe_only (r : CoinbaseRelay) (A B s : string) (l : list string) :
  A ≠ B →
  coinbase_open r = true →
  subscriptions r !! s = Some l →
  (∀ x, x ∈ l ↔ x = A ∨ x = B) →
  let first := on_unsubscribe A s r in
  let second := on_unsubscribe B s (final first) in
  outcome first = Return tt ∧ effects first = [] ∧
  outcome second = Return tt ∧ effects second = [WsSend (unsubscribe_msg s)].
Proof.
  intros Hne Hopen Hs Hl. cbv zeta. rewrite !on_unsubscribe_spec.
  unfold outcome, effects, final; simpl. split_and!; try done.
  - unfold round_sends.
    assert (no_subscribers s (dropped A s r) = false) as ->; [|done].
    apply not_true_iff_false. rewrite no_subscribers_true. intros Hnil.
    assert (B ∈ subscribersOf (dropped A s r) s) as HB.
    { apply elem_of_subscribersOf_dropped. unfold subscribersOf. rewrite Hs. simpl.
      split; [apply Hl; by right | naive_solver]. }
    rewrite Hnil in HB. by apply not_elem_of_nil in HB.
  - unfold round_sends.
    assert (no_subscribers s (dropped B s (dropped A s r)) = true) as ->.
    { apply no_subscribers_true, elem_of_nil_inv. intros x.
      rewrite !elem_of_subscribersOf_dropped. unfold subscribersOf. rewrite Hs. simpl.
      rewrite Hl. naive_solver. }
    replace (coinbase_open (dropped B s (dropped A s r))) with true by done. done.
Qed.

Lemma last_unsubscribe_only_witness :
  let first := on_unsubscribe "A" "BTC-USD" both_subscribed in
  let second := on_unsubscribe "B" "BTC-USD" (final first) in
  outcome first = Return tt ∧ effects first = [] ∧
  outcome second = Return tt ∧ effects second = [WsSend (unsubscribe_msg "BTC-USD")].
Proof.
  apply (last_unsubscribe_only both_subscribed "A" "B" "BTC-USD" ["A"; "B"]).
  - done.
  - reflexivity.
  - vm_compute. reflexivity.
  - intros x. rewrite !elem_of_cons, elem_of_nil. tauto.
Defined.

(** ** Disconnect cleanup *)

Lemma unsubscribe_send_inj : Inj (=) (=) (λ p, WsSend (unsubscribe_msg p)).
Proof. intros p q Heq. by injection Heq. Qed.

Lemma no_subscribers_dropped_all_again s ps p r :
  no_subscribers p (dropped_all s ps (dropped s p r)) = no_subscribers p (dropped s p r).
Proof.
  apply eq_true_iff_eq. rewrite !no_subscribers_true.
  split; intros Hnil; apply elem_of_nil_inv; intros x Hx.
  - assert (x ∈ subscribersOf (dropped_all s ps (dropped s p r)) p) as Hin.
    { apply elem_of_subscribersOf_dropped_all. split; [done|].
      apply elem_of_subscribersOf_dropped in Hx. naive_solver. }
    rewrite Hnil in Hin. by apply not_elem_of_nil in Hin.
  - apply elem_of_subscribersOf_dropped_all in Hx as [Hx _].
    rewrite Hnil in Hx. by apply not_elem_of_nil in Hx.
Qed.

(** With the connection open the loop sends an unsubscribe at each symbol of
    its list that ends up without subscribers. *)
Lemma loop_sends_when_open s ps r :
  coinbase_open r = true →
  loop_sends s ps r =
    (λ p, WsSend (unsubscribe_msg p)) <$>
      filter (λ p, no_subscribers p (dropped_all s ps r) = true) ps.
Proof.
  revert r. induction ps as [|p ps IH]; intros r Hopen; [done|].
  cbn [loop_sends dropped_all foldl]. fold (dropped_all s ps (dropped s p r)).
  rewrite IH by done. unfold round_sends.
  pose proof (no_subscribers_dropped_all_again s ps p r) as Hsame.
  replace (coinbase_open (dropped s p r)) with true by done.
  rewrite andb_true_r, filter_cons. case_decide as Hgone.
  - by rewrite <- Hsame, Hgone.
  - rewrite <- Hsame. by destruct (no_subscribers p _).
Qed.

(** C6: when a socket goes away, [cleanupClient] returns, the socket is in no
    subscriber set of its symbols any more and has no entry of its own, and
    other sockets keep their subscriptions, whatever the state of the
    upstream socket.  With the upstream socket open, the messages sent
    upstream are exactly one unsubscribe for each of the socket's symbols
    that is left without subscribers, none for a symbol that still has one;
    with the socket not open nothing is sent. *)
Theorem cleanupClient_correct (r : CoinbaseRelay) (socketId : string) :
  let res := cleanupClient socketId r in
  let r' := final res in
  outcome res = Return tt ∧
  (∀ p, p ∈ productsOf r socketId → socketId ∉ subscribersOf r' p) ∧
  socketSubscriptions r' !! socketId = None ∧
  (∀ p x, x ≠ socketId →
     (x ∈ subscribersOf r' p ↔ x ∈ subscribersOf r p) ∧
     (p ∈ productsOf r' x ↔ p ∈ productsOf r x)) ∧
  io_sockets r' = io_sockets r ∧ coinbaseWs r' = coinbaseWs r ∧
  (coinbase_open r = true →
     effects res =
       (λ p, WsSend (unsubscribe_msg p)) <$>
         filter (λ p, subscribersOf r' p = []) (productsOf r socketId) ∧
     (∀ e, e ∈ effects res ↔
           ∃ p, e = WsSend (unsubscribe_msg p) ∧
                p ∈ productsOf r socketId ∧ subscribersOf r' p = []) ∧
     (well_formed r → NoDup (effects res))) ∧
  (coinbase_open r = false → effects res = []).
Proof.
  cbv zeta. rewrite cleanupClient_spec.
  unfold outcome, final, effects; simpl.
  set (ps := productsOf r socketId).
  assert (coinbase_open r = true →
          loop_sends socketId ps r =
          (λ p, WsSend (unsubscribe_msg p)) <$>
            filter (λ p, subscribersOf
              (with_socketSubscriptions (delete socketId) (dropped_all socketId ps r)) p = [])
              ps) as Hsends.
  { intros Hopen. rewrite loop_sends_when_open by done. f_equal.
    apply list_filter_iff. intros p.
    rewrite subscribersOf_forgotten. apply no_subscribers_true. }
  destruct (dropped_all_frame socketId ps r) as (Hio & Hws & _).
  split; [done|]. split.
  { intros p Hp. rewrite subscribersOf_forgotten, elem_of_subscribersOf_dropped_all.
    naive_solver. }
  split; [apply lookup_delete_eq|]. split.
  { intros p x Hx. rewrite subscribersOf_forgotten, elem_of_subscribersOf_dropped_all,
      elem_of_productsOf_forgotten, elem_of_productsOf_dropped_all. naive_solver. }
  split; [done|]. split; [done|]. split.
  - intros Hopen. rewrite (Hsends Hopen). split; [done|]. split.
    + intros e. rewrite list_elem_of_fmap. setoid_rewrite list_elem_of_filter.
      naive_solver.
    + intros [_ Hwf]. apply (@NoDup_fmap_2 _ _ _ unsubscribe_send_inj), NoDup_filter.
      unfold ps, productsOf. destruct (socketSubscriptions r !! socketId) eqn:Hl; simpl.
      * by eapply Hwf.
      * apply NoDup_nil_2.
  - intros Hclosed. by apply loop_sends_closed.
Qed.

Lemma cleanupClient_correct_witness :
  coinbase_open shared_interest = true ∧
  effects (cleanupClient "A" shared_interest) = [WsSend (unsubscribe_msg "BTC-USD")] ∧
  subscribersOf (final (cleanupClient "A" shared_interest)) "ETH-USD" = ["B"] ∧
  NoDup (effects (cleanupClient "A" shared_interest)).
Proof.
  assert (well_formed shared_interest) as Hwf.
  { unfold shared_interest. unfold after_ops. cbn [foldl].
    do 3 apply well_formed_registry_op.
    split; intros k l; simpl; by rewrite lookup_empty. }
  destruct (cleanupClient_correct shared_interest "A")
    as (_ & _ & _ & _ & _ & _ & Hopen & _).
  destruct (Hopen eq_refl) as (Hsends & _ & Hnodup).
  split; [reflexivity|]. split; [|split].
  - rewrite Hsends. vm_compute. reflexivity.
  - vm_compute. reflexivity.
  - apply Hnodup, Hwf.
Defined.

(** ** The upstream connection *)

Lemma initializeCoinbaseWebSocket_spec r :
  initializeCoinbaseWebSocket r =
    if coinbase_open r then (Return tt, r, [])
    else (Return tt,
          with_coinbaseWs (λ _, Some (mkWebSocket coinbase_url CONNECTING)) r,
          [WsNew coinbase_url]).
Proof.
  unfold initializeCoinbaseWebSocket. rewrite bind_gets.
  destruct (coinbase_open r); [done|]. by mstep.
Qed.

(** C2, as stated, fails: right after the constructor the upstream socket is
    CONNECTING, and calling [initializeCoinbaseWebSocket] again opens another
    connection. *)
Lemma initialize_while_connecting_reopens :
  coinbaseWs initial = Some (mkWebSocket coinbase_url CONNECTING) ∧
  effects (initializeCoinbaseWebSocket initial) = [WsNew coinbase_url] ∧
  effects (initializeCoinbaseWebSocket initial) ≠ [].
Proof. done. Qed.

(** C2, amended: [initializeCoinbaseWebSocket] does nothing when the upstream
    socket is OPEN; in every other case (no socket yet, CONNECTING, CLOSING or
    CLOSED) it opens a new connection, which starts out CONNECTING, and
    changes nothing else. *)
Theorem initialize_skips_only_when_open (r : CoinbaseRelay) :
  let res := initializeCoinbaseWebSocket r in
  outcome res = Return tt ∧
  if coinbase_open r
  then final res = r ∧ effects res = []
  else effects res = [WsNew coinbase_url] ∧
       final res = with_coinbaseWs (λ _, Some (mkWebSocket coinbase_url CONNECTING)) r.
Proof.
  cbv zeta. rewrite initializeCoinbaseWebSocket_spec.
  by destruct (coinbase_open r).
Qed.

(** [coinbase_open] holds for the OPEN socket only. *)
Lemma coinbase_open_iff r :
  coinbase_open r = true ↔ ∃ ws, coinbaseWs r = Some ws ∧ readyState ws = OPEN.
Proof.
  unfold coinbase_open. destruct (coinbaseWs r) as [ws|].
  - rewrite bool_decide_eq_true. naive_solver.
  - naive_solver.
Qed.

(** *** Reconnecting with backoff *)

Lemma on_ws_close_spec r :
  on_ws_close r =
    (Return tt, r,
     IoEmit "coinbase-status" (status_connected false) ::
     if bool_decide (reconnectAttempts r < maxReconnectAttempts)
     then [SetTimeout (reconnectDelay * 2 ^ reconnectAttempts r)] else []).
Proof. unfold on_ws_close. mstep. by case_bool_decide. Qed.

Lemma reconnect_timer_attempts r :
  outcome (reconnect_timer r) = Return tt ∧
  reconnectAttempts (final (reconnect_timer r)) = reconnectAttempts r + 1 ∧
  scheduled (effects (reconnect_timer r)) = [].
Proof.
  unfold reconnect_timer. rewrite bind_modify, initializeCoinbaseWebSocket_spec.
  by destruct (coinbase_open _).
Qed.

Lemma close_then_timer_spec r :
  outcome (close_then_timer r) = Return tt ∧
  reconnectAttempts (final (close_then_timer r)) = reconnectAttempts r + 1 ∧
  scheduled (effects (close_then_timer r)) =
    if bool_decide (reconnectAttempts r < maxReconnectAttempts)
    then [reconnectDelay * 2 ^ reconnectAttempts r] else [].
Proof.
  unfold close_then_timer, set_readyState. rewrite bind_modify.
  rewrite (bind_run _ _ _ _ _ _ (on_ws_close_spec _)).
  set (r1 := with_coinbaseWs _ r).
  change (reconnectAttempts r) with (reconnectAttempts r1).
  destruct (reconnect_timer_attempts r1) as (Hret & Hn & Hsched).
  unfold outcome, final, effects, prepend in *. simpl.
  split_and!; [done|done|].
  unfold scheduled in *. rewrite omap_app, Hsched, app_nil_r.
  by case_bool_decide.
Qed.

Lemma rounds_attempts n r :
  reconnectAttempts (rounds n r).1 = reconnectAttempts r + Z.of_nat n.
Proof.
  revert r. induction n as [|n IH]; intros r; simpl; [lia|].
  destruct (rounds n (final (close_then_timer r))) as [r' ds] eqn:Hrounds. simpl.
  specialize (IH (final (close_then_timer r))). rewrite Hrounds in IH. simpl in IH.
  rewrite IH. destruct (close_then_timer_spec r) as (_ & -> & _). lia.
Qed.

Lemma rounds_delays n r :
  (rounds (S n) r).2 =
    scheduled (effects (close_then_timer r)) ++ (rounds n (final (close_then_timer r))).2.
Proof. simpl. by destruct (rounds n (final (close_then_timer r))). Qed.

(** C7: from [reconnectAttempts = 0], a close schedules a reconnect after
    [5000 * 2 ^ reconnectAttempts] as long as fewer than five attempts were
    made, the timer adds one to [reconnectAttempts] when it fires, five closes
    in a row schedule 5000, 10000, 20000, 40000 and 80000, and the sixth close
    schedules nothing. *)
Theorem backoff_schedule (r : CoinbaseRelay) :
  reconnectAttempts r = 0 →
  (∀ n : nat,
     let rn := (rounds n r).1 in
     reconnectAttempts rn = Z.of_nat n ∧
     scheduled (effects ((set_readyState CLOSED;; on_ws_close) rn)) =
       (if bool_decide (n < 5)%nat then [5000 * 2 ^ Z.of_nat n] else []) ∧
     reconnectAttempts (final (reconnect_timer rn)) = Z.of_nat n + 1) ∧
  (rounds 5 r).2 = [5000; 10000; 20000; 40000; 80000] ∧
  reconnectAttempts (rounds 5 r).1 = 5 ∧
  scheduled (effects ((set_readyState CLOSED;; on_ws_close) (rounds 5 r).1)) = [].
Proof.
  intros H0.
  assert (∀ n : nat,
     let rn := (rounds n r).1 in
     reconnectAttempts rn = Z.of_nat n ∧
     scheduled (effects ((set_readyState CLOSED;; on_ws_close) rn)) =
       (if bool_decide (n < 5)%nat then [5000 * 2 ^ Z.of_nat n] else []) ∧
     reconnectAttempts (final (reconnect_timer rn)) = Z.of_nat n + 1) as Hround.
  { intros n rn. assert (reconnectAttempts rn = Z.of_nat n) as Hn.
    { unfold rn. rewrite rounds_attempts. lia. }
    split_and!; [done| |].
    - unfold set_readyState. rewrite bind_modify, on_ws_close_spec.
      unfold effects, scheduled; cbn [with_coinbaseWs reconnectAttempts snd omap].
      rewrite Hn. unfold maxReconnectAttempts, reconnectDelay.
      repeat case_bool_decide; (done || lia).
    - destruct (reconnect_timer_attempts rn) as (_ & -> & _). lia. }
  split_and!.
  - exact Hround.
  - rewrite !rounds_delays.
    repeat match goal with
    | |- context [close_then_timer ?x] =>
        let H := fresh in
        destruct (close_then_timer_spec x) as (_ & H & ->); revert H;
        generalize (final (close_then_timer x)); intros ? ?
    end.
    repeat match goal with H : reconnectAttempts _ = _ |- _ => rewrite H; clear H end.
    done.
  - apply (Hround 5%nat).
  - apply (Hround 5%nat).
Qed.

Lemma backoff_schedule_witness :
  reconnectAttempts initial = 0 ∧
  (rounds 5 initial).2 = [5000; 10000; 20000; 40000; 80000] ∧
  scheduled (effects ((set_readyState CLOSED;; on_ws_close) (rounds 5 initial).1)) = [].
Proof.
  split; [reflexivity|].
  destruct (backoff_schedule initial eq_refl) as (_ & Hdelays & _ & Hsixth). done.
Defined.

(** ** Inbound messages: what a handler may do *)

Section Containment.
Context {A B : Type}.

Lemma total_contained (m : M A) : total m → contained m.
Proof. intros Hm r. left. apply Hm. Qed.

Lemma quiet_contained (m : M A) : quiet m → contained m.
Proof. intros Hm r. destruct (Hm r) as [[a|err] ->]; [left|right]; eauto. Qed.

Lemma quiet_ret (a : A) : quiet (mret a : M A).
Proof. intros r. by eexists. Qed.

Lemma quiet_throw err : quiet (throw err : M A).
Proof. intros r. by eexists. Qed.

Lemma quiet_gets (f : CoinbaseRelay → A) : quiet (gets f).
Proof. intros r. by eexists. Qed.

Lemma quiet_bind (m : M A) (k : A → M B) :
  quiet m → (∀ a, quiet (k a)) → quiet (m ≫= k).
Proof.
  intros Hm Hk r. destruct (Hm r) as [[a|err] Hr].
  - rewrite (bind_run _ _ _ _ _ _ Hr), prepend_nil. apply Hk.
  - rewrite (bind_run_throw _ _ _ _ _ _ Hr). by eexists.
Qed.

Lemma contained_bind (m : M A) (k : A → M B) :
  quiet m → (∀ a, contained (k a)) → contained (m ≫= k).
Proof.
  intros Hm Hk r. destruct (Hm r) as [[a|err] Hr].
  - rewrite (bind_run _ _ _ _ _ _ Hr), prepend_nil. apply Hk.
  - rewrite (bind_run_throw _ _ _ _ _ _ Hr). right. by eexists.
Qed.

Lemma total_bind (m : M A) (k : A → M B) :
  total m → (∀ a, total (k a)) → total (m ≫= k).
Proof.
  intros Hm Hk r. destruct (Hm r) as (a & es & Hr).
  rewrite (bind_run _ _ _ _ _ _ Hr). destruct (Hk a r) as (b & es' & ->).
  by do 2 eexists.
Qed.
End Containment.

Lemma total_gets {A : Type} (f : CoinbaseRelay → A) : total (gets f).
Proof. intros r. by do 2 eexists. Qed.

Lemma total_forEach {A : Type} (xs : list A) (f : A → M unit) :
  (∀ x, total (f x)) → total (forEach xs f).
Proof.
  intros Hf. induction xs as [|x xs IH]; cbn [forEach].
  - intros r. by do 2 eexists.
  - apply total_bind; [apply Hf | intros _; apply IH].
Qed.

Lemma quiet_get_property v key : quiet (get_property v key).
Proof. destruct v; simpl; first [apply quiet_ret | apply quiet_throw]. Qed.

Lemma quiet_flatMap_product_ids items : quiet (flatMap_product_ids items).
Proof.
  induction items as [|channel rest IH]; cbn [flatMap_product_ids].
  - apply quiet_ret.
  - apply quiet_bind; [apply quiet_get_property|]. intros ids.
    apply quiet_bind; [apply IH|]. intros more. apply quiet_ret.
Qed.

Lemma emit_to_spec id event payload r :
  emit_to id event payload r = (Return tt, r, deliveries event payload r [id]).
Proof.
  unfold emit_to, deliveries. mstep. rewrite filter_cons, filter_nil.
  case_bool_decide; by case_decide.
Qed.

Lemma forEach_emit_to_spec ids event payload r :
  forEach ids (λ id, emit_to id event payload) r =
    (Return tt, r, deliveries event payload r ids).
Proof.
  induction ids as [|id ids IH]; [done|]. cbn [forEach].
  rewrite (bind_run _ _ _ _ _ _ (emit_to_spec id event payload r)), IH.
  unfold prepend, deliveries; simpl. by rewrite <- fmap_app, <- filter_app.
Qed.

Lemma emit_to_subscribers_spec subscribers event payload r :
  emit_to_subscribers subscribers event payload r =
    (Return tt, r, deliveries event payload r (default [] subscribers)).
Proof.
  unfold emit_to_subscribers. destruct subscribers as [ids|]; [|done].
  rewrite run_when. case_bool_decide as Hsize; simpl.
  - apply size_zero in Hsize. by subst.
  - apply forEach_emit_to_spec.
Qed.

Lemma total_emit_to_subscribers subscribers event payload :
  total (emit_to_subscribers subscribers event payload).
Proof. intros r. rewrite emit_to_subscribers_spec. by do 2 eexists. Qed.

Lemma contained_handleTickerMessage message : contained (handleTickerMessage message).
Proof.
  unfold handleTickerMessage. apply contained_bind; [apply quiet_get_property|].
  intros product_id. destruct (negb (truthy product_id)).
  - apply quiet_contained, quiet_ret.
  - apply contained_bind; [apply quiet_gets|]. intros subscribers.
    apply total_contained, total_emit_to_subscribers.
Qed.

Lemma contained_handleSubscriptionMessage message :
  contained (handleSubscriptionMessage message).
Proof.
  unfold handleSubscriptionMessage. apply contained_bind; [apply quiet_get_property|].
  intros channels. destruct (negb (truthy channels)).
  - apply quiet_contained, quiet_ret.
  - apply contained_bind.
    + destruct channels; first [apply quiet_throw | apply quiet_flatMap_product_ids].
    + intros productIds. apply total_contained, total_forEach. intros productId.
      apply total_bind.
      * apply total_gets.
      * intros subscribers. apply total_emit_to_subscribers.
Qed.

(** ** The relay as an event system: invariants of reachable relays *)

Lemma relay_inv_same_registry r r' : same_registry r r' → relay_inv r → relay_inv r'.
Proof.
  intros (Hio & Hsub & Hsock) (Hsym & [Hwf1 Hwf2] & Hconn).
  unfold relay_inv, symmetric, well_formed, subscribers_connected,
    subscribersOf, productsOf in *.
  rewrite Hio, Hsub, Hsock. done.
Qed.

Lemma relay_inv_initial : relay_inv initial.
Proof.
  unfold relay_inv, symmetric, well_formed, subscribers_connected, sets_NoDup,
    subscribersOf, productsOf.
  destruct initial_maps_empty as [-> ->].
  split_and!; intros *; rewrite ?lookup_empty; simpl; rewrite ?elem_of_nil; done.
Qed.

Lemma same_registry_initialize r :
  same_registry r (final (initializeCoinbaseWebSocket r)).
Proof.
  rewrite initializeCoinbaseWebSocket_spec. by destruct (coinbase_open r).
Qed.

Section RelayInvariants.
Variable JSON_parse : string → option JSValue.

Lemma contained_message_body data : contained (message_body JSON_parse data).
Proof.
  unfold message_body. apply contained_bind.
  { destruct (JSON_parse data); [apply quiet_ret | apply quiet_throw]. }
  intros parsed. apply contained_bind; [apply quiet_get_property|]. intros type.
  apply contained_bind.
  { destruct (strict_eq_str type "ticker"); [|apply quiet_ret].
    apply quiet_bind; [apply quiet_get_property|]. intros ?. apply quiet_ret. }
  intros [|].
  - apply contained_handleTickerMessage.
  - apply contained_bind; [apply quiet_get_property|]. intros type'.
    destruct (strict_eq_str type' "subscriptions").
    + apply contained_handleSubscriptionMessage.
    + apply quiet_contained, quiet_ret.
Qed.

(** The message listener always returns and never changes the relay; what
    its body did is logged when it threw. *)
Lemma on_ws_message_spec data r :
  on_ws_message JSON_parse data r =
    match message_body JSON_parse data r with
    | (Return _, _, es) => (Return tt, r, es)
    | (Throw err, _, _) => (Return tt, r, [ConsoleError err])
    end.
Proof.
  unfold on_ws_message, try_catch.
  destruct (contained_message_body data r) as [([] & es & ->)|(err & ->)]; done.
Qed.

Lemma final_on_ws_message data r : final (on_ws_message JSON_parse data r) = r.
Proof.
  rewrite on_ws_message_spec.
  by destruct (message_body JSON_parse data r) as [[[]?]?].
Qed.

Lemma relay_inv_dispatch ev r :
  relay_inv r → enabled r ev → relay_inv (final (dispatch JSON_parse ev r)).
Proof.
  intros Hinv Hen. destruct ev as [id|id p|id p|id| |data|message| |]; cbn [dispatch].
  - (* connection *)
    unfold on_connection. mstep. unfold final; simpl.
    destruct Hinv as (Hsym & Hwf & Hconn). split_and!; [done|done|].
    intros q x Hx. apply elem_of_union. right. by eapply Hconn.
  - (* subscribe *)
    rewrite on_subscribe_spec. unfold final at 1; simpl.
    destruct Hinv as (Hsym & Hwf & Hconn). split_and!.
    + apply (symmetric_registry_op (OpAdd id p)), Hsym.
    + apply (well_formed_registry_op (OpAdd id p)), Hwf.
    + intros q x. rewrite addSubscription_spec. unfold final, subscribersOf; simpl.
      rewrite elem_of_insert_add. intros [[_ ->]|Hx]; [done | by eapply Hconn].
  - (* unsubscribe *)
    rewrite on_unsubscribe_spec. unfold final; simpl.
    destruct Hinv as (Hsym & Hwf & Hconn). split_and!.
    + pose proof (symmetric_registry_op (OpRemove id p) r Hsym) as H.
      cbn [registry_op] in H. by rewrite removeSubscription_spec in H.
    + by apply well_formed_dropped.
    + intros q x [Hx _]%elem_of_subscribersOf_dropped. by eapply Hconn.
  - (* disconnect *)
    rewrite bind_modify. unfold on_disconnect.
    set (r1 := with_io_sockets _ r).
    assert (symmetric r1 ∧ well_formed r1) as [Hsym Hwf] by (by destruct Hinv as (?&?&?)).
    split_and!.
    + apply (symmetric_registry_op (OpCleanup id)), Hsym.
    + apply (well_formed_registry_op (OpCleanup id)), Hwf.
    + intros q x. rewrite cleanupClient_spec. unfold final; simpl.
      rewrite subscribersOf_forgotten, elem_of_subscribersOf_dropped_all.
      intros [Hx Hnot].
      destruct (dropped_all_frame id (productsOf r1 id) r1) as (Hio & _).
      change (io_sockets (with_socketSubscriptions ?f ?y)) with (io_sockets y).
      rewrite Hio. unfold r1; simpl. apply elem_of_difference. split.
      * destruct Hinv as (_ & _ & Hconn). by eapply Hconn.
      * intros ->%elem_of_singleton. apply Hnot. split; [|done]. by apply Hsym.
  - (* open *)
    revert Hinv. apply relay_inv_same_registry.
    unfold set_readyState, on_ws_open. by mstep.
  - (* message *)
    by rewrite final_on_ws_message.
  - (* error *)
    revert Hinv. apply relay_inv_same_registry. unfold on_ws_error. by mstep.
  - (* close *)
    revert Hinv. apply relay_inv_same_registry.
    unfold set_readyState. rewrite bind_modify, on_ws_close_spec. done.
  - (* timer *)
    revert Hinv. apply relay_inv_same_registry.
    unfold reconnect_timer. rewrite bind_modify.
    apply (same_registry_initialize (with_reconnectAttempts _ r)).
Qed.

Lemma reachable_relay_inv r : reachable JSON_parse r → relay_inv r.
Proof.
  induction 1 as [|r ev _ IH Hen]; [apply relay_inv_initial|].
  by apply relay_inv_dispatch.
Qed.

(** Handlers return: no event makes [dispatch] throw. *)
Lemma dispatch_returns ev r : outcome (dispatch JSON_parse ev r) = Return tt.
Proof.
  destruct ev as [id|id p|id p|id| |data|message| |]; cbn [dispatch].
  - unfold on_connection. by mstep.
  - by rewrite on_subscribe_spec.
  - by rewrite on_unsubscribe_spec.
  - rewrite bind_modify. unfold on_disconnect. by rewrite cleanupClient_spec.
  - unfold set_readyState, on_ws_open. by mstep.
  - rewrite on_ws_message_spec. by destruct (message_body _ _ _) as [[[]?]?].
  - unfold on_ws_error. by mstep.
  - unfold set_readyState. by rewrite bind_modify, on_ws_close_spec.
  - unfold reconnect_timer. rewrite bind_modify, initializeCoinbaseWebSocket_spec.
    by destruct (coinbase_open _).
Qed.
End RelayInvariants.

(** ** Inbound messages: routing and dropping *)

Section Messages.
Variable JSON_parse : string → option JSValue.

Lemma handleTickerMessage_spec props s r :
  own_property props "product_id" = JStr s → s ≠ "" →
  handleTickerMessage (JObj props) r =
    (Return tt, r, deliveries "ticker" (JObj props) r (subscribersOf r s)).
Proof.
  intros Hid Hs. unfold handleTickerMessage. cbn [get_property].
  rewrite bind_ret, Hid. cbn [truthy]. rewrite bool_decide_eq_false_2 by done.
  cbn [negb]. rewrite bind_gets. cbn [map_get]. apply emit_to_subscribers_spec.
Qed.

Lemma message_body_ticker data props s r :
  JSON_parse data = Some (JObj props) →
  own_property props "type" = JStr "ticker" →
  own_property props "product_id" = JStr s → s ≠ "" →
  message_body JSON_parse data r =
    (Return tt, r, deliveries "ticker" (JObj props) r (subscribersOf r s)).
Proof.
  intros Hparse Htype Hid Hs. unfold message_body. rewrite Hparse, bind_ret.
  cbn [get_property]. rewrite bind_ret, Htype. cbn [strict_eq_str].
  rewrite bool_decide_eq_true_2 by done.
  rewrite bind_assoc, bind_ret, Hid, bind_ret. cbn [truthy].
  rewrite bool_decide_eq_false_2 by done. cbn [negb].
  by apply handleTickerMessage_spec.
Qed.

Lemma deliveries_connected event payload r ids :
  (∀ id, id ∈ ids → id ∈ io_sockets r) →
  deliveries event payload r ids = (λ id, SocketEmit id event payload) <$> ids.
Proof.
  intros Hids. unfold deliveries. f_equal.
  induction ids as [|id ids IH]; [done|].
  rewrite filter_cons_True by (apply Hids; left).
  f_equal. apply IH. intros x Hx. apply Hids. by right.
Qed.

Lemma NoDup_subscribersOf r p : well_formed r → NoDup (subscribersOf r p).
Proof.
  intros [Hwf _]. unfold subscribersOf.
  destruct (subscriptions r !! p) eqn:Hp; simpl; [by eapply Hwf | apply NoDup_nil_2].
Qed.

(** C8: a ticker message for symbol [s] that reaches a running relay is
    emitted, as a [ticker] event carrying the parsed message, once to each
    socket in [subscriptions[s]] and to no other socket; the relay itself is
    unchanged. *)
Theorem ticker_routed_to_subscribers
    (r : CoinbaseRelay) (data : string) (props : list (string * JSValue)) (s : string) :
  reachable JSON_parse r →
  JSON_parse data = Some (JObj props) →
  own_property props "type" = JStr "ticker" →
  own_property props "product_id" = JStr s →
  s ≠ "" →
  let res := on_ws_message JSON_parse data r in
  outcome res = Return tt ∧
  final res = r ∧
  effects res = (λ id, SocketEmit id "ticker" (JObj props)) <$> subscribersOf r s ∧
  NoDup (subscribersOf r s) ∧
  (∀ id event payload,
     SocketEmit id event payload ∈ effects res ↔
     id ∈ subscribersOf r s ∧ event = "ticker" ∧ payload = JObj props).
Proof.
  intros Hreach Hparse Htype Hid Hs. cbv zeta.
  destruct (reachable_relay_inv _ _ Hreach) as (_ & Hwf & Hconn).
  rewrite on_ws_message_spec, (message_body_ticker _ _ _ _ Hparse Htype Hid Hs).
  rewrite deliveries_connected by apply Hconn.
  unfold outcome, final, effects; simpl. split_and!; try done.
  - by apply NoDup_subscribersOf.
  - intros id event payload. rewrite list_elem_of_fmap. split.
    + intros (x & Heq & Hx). injection Heq as -> -> ->. done.
    + intros (Hx & -> & ->). by exists id.
Qed.

(** C9: when a message does not parse, or anything else in the listener's
    [try] block throws, the listener returns, the relay is unchanged, and
    the only effect is the error written to the console: no socket gets an
    event. *)
Theorem malformed_message_dropped (r : CoinbaseRelay) (data : string) :
  JSON_parse data = None ∨
    (∃ err, outcome (message_body JSON_parse data r) = Throw err) →
  ∃ err, on_ws_message JSON_parse data r = (Return tt, r, [ConsoleError err]).
Proof.
  intros Hbad.
  assert (∃ err, outcome (message_body JSON_parse data r) = Throw err) as [err Herr].
  { destruct Hbad as [Hparse|?]; [|done]. exists "SyntaxError".
    unfold message_body. by rewrite Hparse. }
  exists err. rewrite on_ws_message_spec.
  destruct (contained_message_body JSON_parse data r) as [(a & es & Hrun)|(err' & Hrun)];
    rewrite Hrun in *; unfold outcome in Herr; simpl in Herr; [done|].
  by injection Herr as ->.
Qed.

(** C10: a message of type [ticker] whose [product_id] is missing or is the
    empty string is dropped without a trace: the listener returns, nothing
    is emitted or logged, and the relay is unchanged. *)
Theorem ticker_without_product_dropped
    (r : CoinbaseRelay) (data : string) (props : list (string * JSValue)) :
  JSON_parse data = Some (JObj props) →
  own_property props "type" = JStr "ticker" →
  own_property props "product_id" = JUndefined ∨
    own_property props "product_id" = JStr "" →
  on_ws_message JSON_parse data r = (Return tt, r, []).
Proof.
  intros Hparse Htype Hid. rewrite on_ws_message_spec.
  unfold message_body. rewrite Hparse, bind_ret. cbn [get_property].
  rewrite bind_ret, Htype. cbn [strict_eq_str].
  rewrite bool_decide_eq_true_2 by done. rewrite bind_assoc, !bind_ret.
  assert (truthy (own_property props "product_id") = false) as ->
    by (by destruct Hid as [-> | ->]).
  rewrite bind_ret. cbn [strict_eq_str].
  by rewrite bool_decide_eq_false_2.
Qed.
End Messages.

(** ** A sample run *)

Lemma reachable_sample_run :
  reachable sample_parse (after_events sample_parse sample_run initial).
Proof.
  unfold sample_run, after_events. cbn [foldl].
  repeat (apply reachable_step; [|vm_compute; try done]).
  apply reachable_initial.
Qed.

Lemma ticker_routed_to_subscribers_witness :
  effects (on_ws_message sample_parse (object_text eth_ticker)
             (after_events sample_parse sample_run initial)) =
    [SocketEmit "A" "ticker" (object_value eth_ticker)].
Proof.
  destruct (ticker_routed_to_subscribers sample_parse
              (after_events sample_parse sample_run initial)
              (object_text eth_ticker) (prod_map id JStr <$> eth_ticker) "ETH-USD"
              reachable_sample_run eq_refl eq_refl eq_refl)
    as (_ & _ & Hsent & _).
  - done.
  - rewrite Hsent. vm_compute. reflexivity.
Defined.

Lemma malformed_message_dropped_witness :
  sample_parse "not json" = None ∧
  ∃ err, on_ws_message sample_parse "not json" initial =
           (Return tt, initial, [ConsoleError err]).
Proof.
  split; [reflexivity|].
  apply (malformed_message_dropped sample_parse initial "not json").
  left. reflexivity.
Defined.

Lemma ticker_without_product_dropped_witness :
  on_ws_message sample_parse (object_text anonymous_ticker)
      (after_events sample_parse sample_run initial) =
    (Return tt, after_events sample_parse sample_run initial, []).
Proof.
  apply (ticker_without_product_dropped sample_parse _ _
           (prod_map id JStr <$> anonymous_ticker)).
  - reflexivity.
  - reflexivity.
  - left. reflexivity.
Defined.

(** ** More on the registry: idempotence and round trips *)

Lemma JSSet_delete_absent x (l : list string) : x ∉ l → JSSet.delete x l = l.
Proof.
  intros Hx. unfold JSSet.delete. induction l as [|y l IH]; [done|].
  apply not_elem_of_cons in Hx as [Hne Hx].
  rewrite filter_cons_True by done. f_equal. by apply IH.
Qed.

Lemma JSSet_add_add x (l : list string) : JSSet.add x (JSSet.add x l) = JSSet.add x l.
Proof.
  unfold JSSet.add at 1. rewrite decide_True; [done|].
  apply elem_of_JSSet_add. by left.
Qed.

Lemma JSSet_delete_add x (l : list string) : x ∉ l → JSSet.delete x (JSSet.add x l) = l.
Proof.
  intros Hx. unfold JSSet.add. rewrite decide_False by done.
  unfold JSSet.delete. rewrite filter_app, filter_cons_False, filter_nil, app_nil_r.
  - by apply JSSet_delete_absent.
  - intros Hne. by apply Hne.
Qed.

Lemma remove_from_absent x k (m : gmap string (list string)) :
  no_empty_sets m → x ∉ default [] (m !! k) → remove_from x k m = m.
Proof.
  intros Hm Hx. unfold remove_from. destruct (m !! k) as [l|] eqn:Hk; [|done].
  simpl in Hx. rewrite JSSet_delete_absent by done.
  rewrite decide_False by (by eapply Hm). by apply insert_id.
Qed.

Lemma remove_from_insert_add x k (m : gmap string (list string)) :
  no_empty_sets m → x ∉ default [] (m !! k) →
  remove_from x k (<[k := JSSet.add x (default [] (m !! k))]> m) = m.
Proof.
  intros Hm Hx. unfold remove_from. rewrite lookup_insert_eq.
  rewrite JSSet_delete_add by done.
  destruct (m !! k) as [l|] eqn:Hk; unfold default.
  - rewrite decide_False by (by eapply Hm).
    rewrite insert_insert_eq. by apply insert_id.
  - rewrite decide_True by done. by apply delete_insert_id.
Qed.

(** X1: [addSubscription] is idempotent: adding a pair a second time leaves
    both maps as the first call left them. *)
Theorem addSubscription_idempotent (r : CoinbaseRelay) (socketId productId : string) :
  addSubscription socketId productId (final (addSubscription socketId productId r)) =
    (Return tt, final (addSubscription socketId productId r), []).
Proof.
  rewrite !addSubscription_spec. unfold final, subscribersOf, productsOf; simpl.
  rewrite !lookup_insert_eq; simpl. by rewrite !JSSet_add_add, !insert_insert_eq.
Qed.

(** X2: on a relay without empty entries, removing a pair that was just added
    and was not there before gives back the relay exactly as it was. *)
Theorem add_then_remove_restores (r : CoinbaseRelay) (socketId productId : string) :
  no_empty_entries r →
  socketId ∉ subscribersOf r productId →
  productId ∉ productsOf r socketId →
  final (removeSubscription socketId productId
           (final (addSubscription socketId productId r))) = r.
Proof.
  intros [Hsub Hsock] Hs Hp.
  rewrite addSubscription_spec. unfold final at 2; simpl.
  rewrite removeSubscription_spec. unfold final, subscribersOf, productsOf in *; simpl.
  rewrite !remove_from_insert_add by done. by destruct r.
Qed.

Lemma add_then_remove_restores_witness :
  final (removeSubscription "B" "ETH-USD"
           (final (addSubscription "B" "ETH-USD" both_subscribed))) = both_subscribed.
Proof.
  apply (add_then_remove_restores both_subscribed "B" "ETH-USD").
  - unfold both_subscribed. rewrite !on_subscribe_spec. unfold final at 1 3; simpl.
    apply (no_empty_entries_registry_op (OpAdd "B" "BTC-USD")).
    apply (no_empty_entries_registry_op (OpAdd "A" "BTC-USD")).
    split; intros k l; simpl; by rewrite lookup_empty.
  - replace (subscribersOf both_subscribed "ETH-USD") with (@nil string)
      by (vm_compute; reflexivity).
    apply not_elem_of_nil.
  - replace (productsOf both_subscribed "B") with ["BTC-USD"]
      by (vm_compute; reflexivity).
    rewrite elem_of_cons, elem_of_nil. intros [Heq|[]]. discriminate Heq.
Defined.

(** X3: on a relay without empty entries, [removeSubscription] of a pair that
    is in neither map changes nothing; without the pair, a double unsubscribe
    is a no-op on the registry. *)
Theorem removeSubscription_absent (r : CoinbaseRelay) (socketId productId : string) :
  no_empty_entries r →
  socketId ∉ subscribersOf r productId →
  productId ∉ productsOf r socketId →
  removeSubscription socketId productId r = (Return tt, r, []).
Proof.
  intros [Hsub Hsock] Hs Hp. rewrite removeSubscription_spec.
  rewrite !remove_from_absent by done. by destruct r.
Qed.

Lemma removeSubscription_absent_witness :
  removeSubscription "A" "ETH-USD" both_subscribed = (Return tt, both_subscribed, []).
Proof.
  apply (removeSubscription_absent both_subscribed "A" "ETH-USD").
  - unfold both_subscribed. rewrite !on_subscribe_spec. unfold final at 1 3; simpl.
    apply (no_empty_entries_registry_op (OpAdd "B" "BTC-USD")).
    apply (no_empty_entries_registry_op (OpAdd "A" "BTC-USD")).
    split; intros k l; simpl; by rewrite lookup_empty.
  - replace (subscribersOf both_subscribed "ETH-USD") with (@nil string)
      by (vm_compute; reflexivity).
    apply not_elem_of_nil.
  - replace (productsOf both_subscribed "A") with ["BTC-USD"]
      by (vm_compute; reflexivity).
    rewrite elem_of_cons, elem_of_nil. intros [Heq|[]]. discriminate Heq.
Defined.

(** ** Requests while the upstream socket is not open, and repeated requests *)

Lemma elem_of_subscribersOf_added y q s p r :
  y ∈ subscribersOf (final (addSubscription s p r)) q ↔
  (q = p ∧ y = s) ∨ y ∈ subscribersOf r q.
Proof. rewrite addSubscription_spec. apply elem_of_insert_add. Qed.

(** X4: while the upstream socket is not open, subscribe, unsubscribe and
    disconnect send nothing upstream, yet the registry is updated all the
    same: the subscriber is recorded by a subscribe request and gone after an
    unsubscribe request or a disconnect. *)
Theorem requests_while_closed (r : CoinbaseRelay) (socketId productId : string) :
  coinbase_open r = false →
  effects (on_subscribe socketId productId r) = [] ∧
  socketId ∈ subscribersOf (final (on_subscribe socketId productId r)) productId ∧
  effects (on_unsubscribe socketId productId r) = [] ∧
  (socketId ∉ subscribersOf (final (on_unsubscribe socketId productId r)) productId) ∧
  effects (on_disconnect socketId r) = [] ∧
  socketSubscriptions (final (on_disconnect socketId r)) !! socketId = None.
Proof.
  intros Hclosed. rewrite on_subscribe_spec, on_unsubscribe_spec.
  unfold on_disconnect. rewrite cleanupClient_spec. unfold effects, final; simpl.
  rewrite Hclosed. split_and!.
  - done.
  - apply (elem_of_subscribersOf_added socketId productId socketId productId r). by left.
  - unfold round_sends. replace (coinbase_open (dropped socketId productId r)) with false
      by done. by rewrite andb_false_r.
  - rewrite elem_of_subscribersOf_dropped. naive_solver.
  - by apply loop_sends_closed.
  - apply lookup_delete_eq.
Qed.

Lemma requests_while_closed_witness :
  coinbase_open initial = false ∧
  effects (on_subscribe "A" "BTC-USD" initial) = [] ∧
  "A" ∈ subscribersOf (final (on_subscribe "A" "BTC-USD" initial)) "BTC-USD".
Proof.
  split; [reflexivity|].
  destruct (requests_while_closed initial "A" "BTC-USD" eq_refl) as (H1 & H2 & _).
  by split.
Defined.

(** X5: an unsubscribe request for a symbol that has no subscriber is not
    filtered out: with the upstream socket open it sends an upstream
    unsubscribe message, whoever asks, and a repeated request sends it
    again. *)
Theorem unsubscribe_without_subscribers_sends
    (r : CoinbaseRelay) (socketId productId : string) :
  coinbase_open r = true →
  subscribersOf r productId = [] →
  let first := on_unsubscribe socketId productId r in
  let second := on_unsubscribe socketId productId (final first) in
  effects first = [WsSend (unsubscribe_msg productId)] ∧
  effects second = [WsSend (unsubscribe_msg productId)].
Proof.
  intros Hopen Hnone. cbv zeta. rewrite !on_unsubscribe_spec. unfold effects, final; simpl.
  assert (∀ r', coinbase_open r' = true → subscribersOf r' productId = [] →
            round_sends productId (dropped socketId productId r') =
              [WsSend (unsubscribe_msg productId)] ∧
            subscribersOf (dropped socketId productId r') productId = []) as Hstep.
  { intros r' Hopen' Hnone'.
    assert (subscribersOf (dropped socketId productId r') productId = []) as Hstill.
    { apply elem_of_nil_inv. intros x. rewrite elem_of_subscribersOf_dropped, Hnone'.
      intros [?%not_elem_of_nil _]. done. }
    split; [|done]. unfold round_sends.
    rewrite (proj2 (no_subscribers_true _ _) Hstill).
    by replace (coinbase_open (dropped socketId productId r')) with true. }
  destruct (Hstep r Hopen Hnone) as [-> Hstill]. split; [done|].
  by apply Hstep.
Qed.

Lemma unsubscribe_without_subscribers_sends_witness :
  effects (on_unsubscribe "A" "ETH-USD" two_clients_open) =
    [WsSend (unsubscribe_msg "ETH-USD")].
Proof.
  apply (unsubscribe_without_subscribers_sends two_clients_open "A" "ETH-USD");
    reflexivity.
Defined.

(** X6: [cleanupClient] is idempotent: a second cleanup of the same socket
    returns, sends nothing and leaves the relay as the first one left it. *)
Theorem cleanupClient_idempotent (r : CoinbaseRelay) (socketId : string) :
  cleanupClient socketId (final (cleanupClient socketId r)) =
    (Return tt, final (cleanupClient socketId r), []).
Proof.
  rewrite (cleanupClient_spec socketId r). unfold final; simpl.
  set (r' := with_socketSubscriptions _ _).
  assert (socketSubscriptions r' !! socketId = None) as Hgone by apply lookup_delete_eq.
  rewrite cleanupClient_spec. unfold productsOf. rewrite Hgone. simpl.
  unfold dropped_all, with_socketSubscriptions; simpl.
  by rewrite (delete_id _ _ Hgone).
Qed.

(** ** Reconnecting: what resets the backoff *)

Lemma on_ws_open_spec r :
  on_ws_open r =
    (Return tt, with_reconnectAttempts (λ _, 0) r,
     [IoEmit "coinbase-status" (status_connected true)]).
Proof. unfold on_ws_open. by mstep. Qed.

(** X7: when the upstream socket opens, [reconnectAttempts] goes back to 0
    whatever it was, every client is told [connected: true], and a close
    right after it schedules the reconnect after the base delay of 5000. *)
Theorem open_resets_backoff (r : CoinbaseRelay) :
  let opened := (set_readyState OPEN;; on_ws_open) r in
  let closed := (set_readyState CLOSED;; on_ws_close) (final opened) in
  reconnectAttempts (final opened) = 0 ∧
  effects opened = [IoEmit "coinbase-status" (status_connected true)] ∧
  effects closed =
    [IoEmit "coinbase-status" (status_connected false); SetTimeout 5000].
Proof.
  cbv zeta. unfold set_readyState.
  rewrite !bind_modify, on_ws_open_spec, on_ws_close_spec. done.
Qed.

(** ** What the message listener may emit *)

Section Confinement.
Context {A B : Type}.
Implicit Types (Q : CoinbaseRelay → Effect → Prop).

Lemma confined_quiet Q (m : M A) : quiet m → confined Q m.
Proof. intros Hm r. destruct (Hm r) as [o ->]. exists o, []. by split. Qed.

Lemma confined_mono Q Q' (m : M A) :
  (∀ r e, Q r e → Q' r e) → confined Q m → confined Q' m.
Proof.
  intros HQ Hm r. destruct (Hm r) as (o & es & -> & Hes). exists o, es.
  split; [done|]. eapply Forall_impl; [done|]. apply HQ.
Qed.

Lemma confined_bind Q (m : M A) (k : A → M B) :
  confined Q m → (∀ a, confined Q (k a)) → confined Q (m ≫= k).
Proof.
  intros Hm Hk r. destruct (Hm r) as ([a|err] & es & Hr & Hes).
  - rewrite (bind_run _ _ _ _ _ _ Hr). destruct (Hk a r) as (o & es' & -> & Hes').
    exists o, (es ++ es'). split; [done|]. by apply Forall_app.
  - rewrite (bind_run_throw _ _ _ _ _ _ Hr). by exists (Throw err), es.
Qed.
End Confinement.

Lemma confined_forEach {A : Type} Q (xs : list A) (f : A → M unit) :
  (∀ x, confined Q (f x)) → confined Q (forEach xs f).
Proof.
  intros Hf. induction xs as [|x xs IH]; cbn [forEach].
  - apply confined_quiet, quiet_ret.
  - apply confined_bind; [apply Hf | intros _; apply IH].
Qed.

Lemma elem_of_deliveries e event payload r ids :
  e ∈ deliveries event payload r ids ↔
  ∃ id, e = SocketEmit id event payload ∧ id ∈ io_sockets r ∧ id ∈ ids.
Proof.
  unfold deliveries. rewrite list_elem_of_fmap. setoid_rewrite list_elem_of_filter.
  naive_solver.
Qed.

Lemma map_get_subscribersOf key r :
  default [] (map_get (subscriptions r) key) =
    match key with JStr p => subscribersOf r p | _ => [] end.
Proof. by destruct key. Qed.

Lemma route_to_subscriber key event payload r :
  Forall (to_subscriber event payload r) (route key event payload r).
Proof.
  apply Forall_forall. intros e (id & -> & Hio & Hid)%elem_of_deliveries.
  rewrite map_get_subscribersOf in Hid. destruct key as [| | | |p| |];
    try by apply not_elem_of_nil in Hid.
  by exists id, p.
Qed.

Lemma route_step_spec key event payload r :
  (subscribers ← gets (λ r, map_get (subscriptions r) key);
   emit_to_subscribers subscribers event payload) r =
  (Return tt, r, route key event payload r).
Proof. rewrite bind_gets. apply emit_to_subscribers_spec. Qed.

Lemma confined_route_step key event payload :
  confined (to_subscriber event payload)
    (subscribers ← gets (λ r, map_get (subscriptions r) key);
     emit_to_subscribers subscribers event payload).
Proof.
  intros r. rewrite route_step_spec. do 2 eexists. split; [done|].
  apply route_to_subscriber.
Qed.

Lemma confined_handleTickerMessage message :
  confined (to_subscriber "ticker" message) (handleTickerMessage message).
Proof.
  unfold handleTickerMessage.
  apply confined_bind; [apply confined_quiet, quiet_get_property|].
  intros product_id. destruct (negb (truthy product_id)).
  - apply confined_quiet, quiet_ret.
  - apply confined_route_step.
Qed.

Lemma confined_handleSubscriptionMessage message :
  confined (to_subscriber "subscription-confirmed" message)
    (handleSubscriptionMessage message).
Proof.
  unfold handleSubscriptionMessage.
  apply confined_bind; [apply confined_quiet, quiet_get_property|].
  intros channels. destruct (negb (truthy channels)).
  - apply confined_quiet, quiet_ret.
  - apply confined_bind.
    + apply confined_quiet.
      destruct channels; first [apply quiet_throw | apply quiet_flatMap_product_ids].
    + intros productIds. apply confined_forEach. intros productId.
      apply confined_route_step.
Qed.

Section ListenerEffects.
Variable JSON_parse : string → option JSValue.

Lemma message_body_relayed data r e :
  e ∈ effects (message_body JSON_parse data r) →
  ∃ parsed, JSON_parse data = Some parsed ∧ relayed parsed r e.
Proof.
  unfold message_body. destruct (JSON_parse data) as [parsed|] eqn:Hparse.
  - rewrite bind_ret. intros He. exists parsed. split; [done|]. revert He.
    assert (confined (relayed parsed)
      (type ← get_property parsed "type";
       is_ticker ← (if strict_eq_str type "ticker"
                    then product_id ← get_property parsed "product_id";
                         mret (truthy product_id)
                    else mret false);
       if (is_ticker : bool) then handleTickerMessage parsed
       else
         type ← get_property parsed "type";
         if strict_eq_str type "subscriptions"
         then handleSubscriptionMessage parsed
         else mret tt)) as Hbody.
    { apply confined_bind; [apply confined_quiet, quiet_get_property|]. intros type.
      apply confined_bind.
      { apply confined_quiet. destruct (strict_eq_str type "ticker"); [|apply quiet_ret].
        apply quiet_bind; [apply quiet_get_property|]. intros ?. apply quiet_ret. }
      intros [|].
      - eapply confined_mono; [|apply confined_handleTickerMessage].
        intros ???. by left.
      - apply confined_bind; [apply confined_quiet, quiet_get_property|]. intros type'.
        destruct (strict_eq_str type' "subscriptions").
        + eapply confined_mono; [|apply confined_handleSubscriptionMessage].
          intros ???. by right.
        + apply confined_quiet, quiet_ret. }
    destruct (Hbody r) as (o & es & -> & Hes). unfold effects; simpl.
    intros He. by eapply Forall_forall in Hes.
  - rewrite bind_throw. unfold effects; simpl. by intros ?%not_elem_of_nil.
Qed.

Lemma on_ws_message_effects data r e :
  e ∈ effects (on_ws_message JSON_parse data r) →
  (∃ err, e = ConsoleError err) ∨
  (∃ parsed, JSON_parse data = Some parsed ∧ relayed parsed r e).
Proof.
  rewrite on_ws_message_spec. pose proof (message_body_relayed data r e) as Hbody.
  destruct (message_body JSON_parse data r) as [[[[]|err] r'] es]; unfold effects in *; simpl in *.
  - intros He. right. by apply Hbody.
  - intros ->%list_elem_of_singleton. left. by eexists.
Qed.

(** X8: whatever arrives from Coinbase, the listener returns and leaves the
    relay as it is, and what it does is either to log one error and nothing
    else, or to emit events, each to a socket that is connected and is a
    subscriber of some symbol, as [ticker] or [subscription-confirmed] with
    the parsed message as payload.  It has no other effect: it never
    broadcasts, never sends upstream and never sets a timer. *)
Theorem listener_emits_only_to_subscribers (r : CoinbaseRelay) (data : string) :
  let res := on_ws_message JSON_parse data r in
  outcome res = Return tt ∧
  final res = r ∧
  ((∃ err, effects res = [ConsoleError err]) ∨
   (∃ payload,
      JSON_parse data = Some payload ∧
      ∀ e, e ∈ effects res →
        ∃ socketId event productId,
          e = SocketEmit socketId event payload ∧
          (event = "ticker" ∨ event = "subscription-confirmed") ∧
          socketId ∈ io_sockets r ∧
          socketId ∈ subscribersOf r productId)).
Proof.
  cbv zeta. rewrite on_ws_message_spec.
  pose proof (message_body_relayed data r) as Hbody.
  destruct (contained_message_body JSON_parse data r) as [([] & es & Hrun)|(err & Hrun)];
    rewrite Hrun in *; unfold outcome, final, effects in *; simpl in *.
  - split; [done|]. split; [done|]. right.
    destruct (JSON_parse data) as [payload|] eqn:Hparse.
    + exists payload. split; [done|]. intros e He.
      destruct (Hbody e He) as (parsed & Heq & Hrel). injection Heq as <-.
      destruct Hrel as [(id & p & -> & Hio & Hsub)|(id & p & -> & Hio & Hsub)];
        exists id; eauto 10.
    + unfold message_body in Hrun. by rewrite Hparse in Hrun.
  - split; [done|]. split; [done|]. left. by exists err.
Qed.
End ListenerEffects.

Lemma listener_emits_only_to_subscribers_witness :
  effects (on_ws_message sample_parse (object_text eth_ticker)
             (after_events sample_parse sample_run initial)) =
    [SocketEmit "A" "ticker" (object_value eth_ticker)] ∧
  ∃ productId,
    "A" ∈ io_sockets (after_events sample_parse sample_run initial) ∧
    "A" ∈ subscribersOf (after_events sample_parse sample_run initial) productId.
Proof.
  assert (effects (on_ws_message sample_parse (object_text eth_ticker)
                     (after_events sample_parse sample_run initial)) =
          [SocketEmit "A" "ticker" (object_value eth_ticker)]) as Heff
    by (vm_compute; reflexivity).
  split; [exact Heff|].
  destruct (listener_emits_only_to_subscribers sample_parse
              (after_events sample_parse sample_run initial) (object_text eth_ticker))
    as (_ & _ & [[err Herr]|(payload & _ & Honly)]).
  - rewrite Heff in Herr. discriminate Herr.
  - destruct (Honly (SocketEmit "A" "ticker" (object_value eth_ticker)))
      as (id & event & p & Heq & _ & Hio & Hsub).
    + rewrite Heff. apply list_elem_of_here.
    + injection Heq as <- _ _. by exists p.
Defined.

(** ** Which event causes which effect *)

Lemma elem_of_round_sends e p r :
  e ∈ round_sends p r →
  coinbase_open r = true ∧ no_subscribers p r = true ∧ e = WsSend (unsubscribe_msg p).
Proof.
  unfold round_sends.
  destruct (no_subscribers p r), (coinbase_open r); simpl;
    first [by intros ?%not_elem_of_nil | by intros ->%list_elem_of_singleton].
Qed.

Lemma elem_of_loop_sends e s ps r :
  e ∈ loop_sends s ps r →
  coinbase_open r = true ∧ ∃ p, p ∈ ps ∧ e = WsSend (unsubscribe_msg p).
Proof.
  revert r. induction ps as [|p ps IH]; intros r; cbn [loop_sends].
  - by intros ?%not_elem_of_nil.
  - intros [He|He]%elem_of_app.
    + apply elem_of_round_sends in He as (Hopen & _ & ->).
      split; [done|]. exists p. split; [left|done].
    + apply IH in He as (Hopen & q & Hq & ->).
      split; [done|]. exists q. split; [by right|done].
Qed.

Section EventEffects.
Variable JSON_parse : string → option JSValue.

(** X9: a message goes upstream only while a subscribe, unsubscribe or
    disconnect event is handled with the upstream socket open, and it is the
    subscribe or unsubscribe message of a symbol that event is about.  No
    message from Coinbase, no open, error or close of the upstream socket and
    no reconnect timer sends anything upstream: after a reconnect the symbols
    in the registry are not subscribed again. *)
Theorem upstream_sends_only_on_request (ev : Event) (r : CoinbaseRelay) (msg : UpstreamMsg) :
  WsSend msg ∈ effects (dispatch JSON_parse ev r) →
  coinbase_open r = true ∧
  ((∃ socketId productId,
      ev = Subscribe socketId productId ∧ msg = subscribe_msg productId) ∨
   (∃ socketId productId,
      ev = Unsubscribe socketId productId ∧ msg = unsubscribe_msg productId) ∨
   (∃ socketId productId,
      ev = Disconnect socketId ∧ productId ∈ productsOf r socketId ∧
      msg = unsubscribe_msg productId)).
Proof.
  destruct ev as [id|id p|id p|id| |data|message| |]; cbn [dispatch].
  - unfold on_connection. mstep. unfold effects; simpl.
    by intros ?%list_elem_of_singleton.
  - rewrite on_subscribe_spec. unfold effects; simpl.
    destruct (coinbase_open r); [|by intros ?%not_elem_of_nil].
    intros Heq%list_elem_of_singleton. injection Heq as ->. split; [done|].
    left. by exists id, p.
  - rewrite on_unsubscribe_spec. unfold effects; simpl.
    intros (Hopen & _ & Heq)%elem_of_round_sends. injection Heq as ->.
    split; [done|]. right; left. by exists id, p.
  - rewrite bind_modify. unfold on_disconnect. rewrite cleanupClient_spec.
    unfold effects; simpl.
    intros (Hopen & q & Hq & Heq)%elem_of_loop_sends. injection Heq as ->.
    split; [done|]. right; right. by exists id, q.
  - unfold set_readyState. rewrite bind_modify, on_ws_open_spec. unfold effects; simpl.
    by intros ?%list_elem_of_singleton.
  - intros [[err Herr]|(parsed & _ & [Hrel|Hrel])]%on_ws_message_effects; [done| |];
      by destruct Hrel as (? & ? & ? & _).
  - unfold on_ws_error. mstep. unfold effects, prepend; simpl.
    rewrite !elem_of_cons, elem_of_nil. naive_solver.
  - unfold set_readyState. rewrite bind_modify, on_ws_close_spec. unfold effects; simpl.
    case_bool_decide; rewrite !elem_of_cons, elem_of_nil; naive_solver.
  - unfold reconnect_timer. rewrite bind_modify, initializeCoinbaseWebSocket_spec.
    destruct (coinbase_open _); unfold effects; simpl;
      rewrite ?elem_of_cons, elem_of_nil; naive_solver.
Qed.

(** X10: a reconnect timer is set only by the close listener, only while
    fewer than five attempts were made, and with the delay
    [5000 * 2 ^ reconnectAttempts]; in particular the error listener sets
    none.  A new upstream socket is created only when that timer fires, and
    only if the current socket is not open. *)
Theorem reconnect_only_after_close (ev : Event) (r : CoinbaseRelay) :
  (∀ delay, SetTimeout delay ∈ effects (dispatch JSON_parse ev r) →
     ev = WsClose ∧ reconnectAttempts r < maxReconnectAttempts ∧
     delay = reconnectDelay * 2 ^ reconnectAttempts r) ∧
  (∀ address, WsNew address ∈ effects (dispatch JSON_parse ev r) →
     ev = Timer ∧ coinbase_open r = false ∧ address = coinbase_url).
Proof.
  destruct ev as [id|id p|id p|id| |data|message| |]; cbn [dispatch].
  - unfold on_connection. mstep. unfold effects; simpl.
    split; intros ?; by intros ?%list_elem_of_singleton.
  - rewrite on_subscribe_spec. unfold effects; simpl.
    destruct (coinbase_open r); split; intros ?;
      first [by intros ?%not_elem_of_nil | by intros ?%list_elem_of_singleton].
  - rewrite on_unsubscribe_spec. unfold effects; simpl.
    split; intros ?; by intros (_ & _ & ?)%elem_of_round_sends.
  - rewrite bind_modify. unfold on_disconnect. rewrite cleanupClient_spec.
    unfold effects; simpl.
    split; intros ?; by intros (_ & ? & _ & ?)%elem_of_loop_sends.
  - unfold set_readyState. rewrite bind_modify, on_ws_open_spec. unfold effects; simpl.
    split; intros ?; by intros ?%list_elem_of_singleton.
  - split; intros ?;
      (intros [[err Herr]|(parsed & _ & [Hrel|Hrel])]%on_ws_message_effects; [done| |];
       by destruct Hrel as (? & ? & ? & _)).
  - unfold on_ws_error. mstep. unfold effects, prepend; simpl.
    split; intros ?; rewrite !elem_of_cons, elem_of_nil; naive_solver.
  - unfold set_readyState. rewrite bind_modify, on_ws_close_spec. unfold effects; simpl.
    split; intros ?; case_bool_decide; rewrite !elem_of_cons, elem_of_nil; naive_solver.
  - unfold reconnect_timer. rewrite bind_modify, initializeCoinbaseWebSocket_spec.
    change (coinbase_open (with_reconnectAttempts _ r)) with (coinbase_open r).
    destruct (coinbase_open r); unfold effects; simpl;
      split; intros ?; rewrite ?elem_of_cons, elem_of_nil; naive_solver.
Qed.
End EventEffects.

Lemma upstream_sends_only_on_request_witness :
  coinbase_open two_clients_open = true.
Proof.
  apply (upstream_sends_only_on_request sample_parse
           (Subscribe "A" "BTC-USD") two_clients_open (subscribe_msg "BTC-USD")).
  replace (effects _) with [WsSend (subscribe_msg "BTC-USD")] by (vm_compute; reflexivity).
  apply list_elem_of_here.
Defined.

(** ** Invariants of the running relay *)

Section RunningRelay.
Variable JSON_parse : string → option JSValue.

Lemma no_empty_entries_same_registry r r' :
  same_registry r r' → no_empty_entries r → no_empty_entries r'.
Proof. intros (_ & Hsub & Hsock). unfold no_empty_entries. by rewrite Hsub, Hsock. Qed.

Lemma no_empty_entries_dispatch ev r :
  no_empty_entries r → no_empty_entries (final (dispatch JSON_parse ev r)).
Proof.
  intros Hr. destruct ev as [id|id p|id p|id| |data|message| |]; cbn [dispatch].
  - unfold on_connection. by mstep.
  - rewrite on_subscribe_spec. unfold final at 1; simpl.
    by apply (no_empty_entries_registry_op (OpAdd id p)).
  - rewrite on_unsubscribe_spec. unfold final; simpl.
    destruct Hr. split; by apply no_empty_sets_remove_from.
  - rewrite bind_modify. unfold on_disconnect.
    by apply (no_empty_entries_registry_op (OpCleanup id)).
  - revert Hr. apply no_empty_entries_same_registry.
    unfold set_readyState. by rewrite bind_modify, on_ws_open_spec.
  - by rewrite final_on_ws_message.
  - revert Hr. apply no_empty_entries_same_registry. unfold on_ws_error. by mstep.
  - revert Hr. apply no_empty_entries_same_registry.
    unfold set_readyState. by rewrite bind_modify, on_ws_close_spec.
  - revert Hr. apply no_empty_entries_same_registry.
    unfold reconnect_timer. rewrite bind_modify.
    apply (same_registry_initialize (with_reconnectAttempts _ r)).
Qed.

Lemma reconnectAttempts_dispatch ev r :
  reconnectAttempts (final (dispatch JSON_parse ev r)) =
    match ev with
    | WsOpen => 0
    | Timer => reconnectAttempts r + 1
    | _ => reconnectAttempts r
    end.
Proof.
  destruct ev as [id|id p|id p|id| |data|message| |]; cbn [dispatch].
  - unfold on_connection. by mstep.
  - by rewrite on_subscribe_spec, addSubscription_spec.
  - by rewrite on_unsubscribe_spec.
  - rewrite bind_modify. unfold on_disconnect. rewrite cleanupClient_spec.
    unfold final; simpl.
    by destruct (dropped_all_frame id (productsOf (with_io_sockets (λ s, s ∖ {[id]}) r) id)
                   (with_io_sockets (λ s, s ∖ {[id]}) r)) as (_ & _ & ->).
  - unfold set_readyState. by rewrite bind_modify, on_ws_open_spec.
  - by rewrite final_on_ws_message.
  - unfold on_ws_error. by mstep.
  - unfold set_readyState. by rewrite bind_modify, on_ws_close_spec.
  - unfold reconnect_timer. rewrite bind_modify, initializeCoinbaseWebSocket_spec.
    by destruct (coinbase_open _).
Qed.

Lemma reachable_no_empty_entries r : reachable JSON_parse r → no_empty_entries r.
Proof.
  induction 1 as [|r ev _ IH _].
  - split; intros k l; by rewrite ?(proj1 initial_maps_empty), ?(proj2 initial_maps_empty),
      lookup_empty.
  - by apply no_empty_entries_dispatch.
Qed.

Lemma reachable_attempts_nonneg r : reachable JSON_parse r → 0 ≤ reconnectAttempts r.
Proof.
  induction 1 as [|r ev _ IH _]; [done|].
  rewrite reconnectAttempts_dispatch. destruct ev; lia.
Qed.

(** X11: in every relay the event system can reach, whatever mix of client
    requests, Coinbase messages, closes and timers led there, the two maps
    mirror each other, hold no empty set, and mention connected sockets only:
    a socket that has disconnected is left in neither map. *)
Theorem running_registry_consistent (r : CoinbaseRelay) :
  reachable JSON_parse r →
  (∀ socketId productId,
     socketId ∈ subscribersOf r productId ↔ productId ∈ productsOf r socketId) ∧
  (∀ key, subscriptions r !! key ≠ Some [] ∧ socketSubscriptions r !! key ≠ Some []) ∧
  (∀ socketId productId, socketId ∈ subscribersOf r productId → socketId ∈ io_sockets r) ∧
  (∀ socketId, is_Some (socketSubscriptions r !! socketId) → socketId ∈ io_sockets r).
Proof.
  intros Hreach.
  destruct (reachable_relay_inv _ _ Hreach) as (Hsym & _ & Hconn).
  destruct (reachable_no_empty_entries _ Hreach) as [Hsub Hsock].
  split_and!.
  - exact Hsym.
  - intros key. split; intros Hk; [by eapply Hsub | by eapply Hsock].
  - intros id p. apply Hconn.
  - intros id [l Hl]. destruct l as [|p l]; [by destruct (Hsock id [] Hl)|].
    apply (Hconn p), Hsym. unfold productsOf. rewrite Hl. left.
Qed.

(** X12: in every relay the event system can reach, [reconnectAttempts] is
    not negative, and a delay the close listener schedules is one of 5000,
    10000, 20000, 40000 and 80000, so never more than 80 seconds. *)
Theorem backoff_delay_bounded (r : CoinbaseRelay) (delay : Z) :
  reachable JSON_parse r →
  SetTimeout delay ∈ effects (dispatch JSON_parse WsClose r) →
  0 ≤ reconnectAttempts r < 5 ∧
  delay = 5000 * 2 ^ reconnectAttempts r ∧
  delay ∈ [5000; 10000; 20000; 40000; 80000] ∧
  5000 ≤ delay ≤ 80000.
Proof.
  intros Hreach Hin. pose proof (reachable_attempts_nonneg r Hreach) as Hnonneg.
  cbn [dispatch] in Hin. unfold set_readyState in Hin.
  rewrite bind_modify, on_ws_close_spec in Hin. unfold effects in Hin; simpl in Hin.
  unfold maxReconnectAttempts, reconnectDelay in Hin.
  case_bool_decide as Hlt; rewrite !elem_of_cons, elem_of_nil in Hin;
    [|naive_solver].
  destruct Hin as [?|[Heq|[]]]; [done|]. injection Heq as ->.
  assert (reconnectAttempts r = 0 ∨ reconnectAttempts r = 1 ∨ reconnectAttempts r = 2 ∨
          reconnectAttempts r = 3 ∨ reconnectAttempts r = 4) as Hcases by lia.
  split; [lia|]. split; [done|].
  destruct Hcases as [->|[->|[->|[->| ->]]]]; simpl;
    (split; [rewrite !elem_of_cons; tauto | lia]).
Qed.
End RunningRelay.

Lemma running_registry_consistent_witness :
  ("A" ∈ subscribersOf (after_events sample_parse sample_run initial) "ETH-USD" ↔
   "ETH-USD" ∈ productsOf (after_events sample_parse sample_run initial) "A") ∧
  subscriptions (after_events sample_parse sample_run initial) !! "ETH-USD" ≠ Some [].
Proof.
  destruct (running_registry_consistent sample_parse
              (after_events sample_parse sample_run initial) reachable_sample_run)
    as (Hsym & Hnonempty & _).
  split; [apply Hsym | apply Hnonempty].
Defined.

Lemma backoff_delay_bounded_witness : 5000 ≤ 5000 ≤ 80000.
Proof.
  apply (backoff_delay_bounded sample_parse initial 5000 (reachable_initial sample_parse)).
  replace (effects _) with
    [IoEmit "coinbase-status" (status_connected false); SetTimeout 5000]
    by (vm_compute; reflexivity).
  apply list_elem_of_further, list_elem_of_here.
Defined.

(** ** Acknowledgements and unrecognised messages *)

Lemma forEach_spec {A : Type} (xs : list A) (f : A → M unit)
    (g : A → CoinbaseRelay → list Effect) r :
  (∀ x, f x r = (Return tt, r, g x r)) →
  forEach xs f r = (Return tt, r, concat ((λ x, g x r) <$> xs)).
Proof.
  intros Hf. induction xs as [|x xs IH]; [done|]. cbn [forEach].
  rewrite (bind_run _ _ _ _ _ _ (Hf x)), IH. done.
Qed.

Lemma flatMap_product_ids_ack channels idss r :
  Forall2 ack_channel channels idss →
  flatMap_product_ids channels r = (Return (JStr <$> concat idss), r, []).
Proof.
  induction 1 as [|channel ids channels idss (props & -> & Hids) _ IH]; [done|].
  cbn [flatMap_product_ids get_property]. rewrite bind_ret, Hids.
  rewrite (bind_run _ _ _ _ _ _ IH), prepend_nil.
  cbn [truthy flatten_one concat]. by rewrite fmap_app.
Qed.

Section Acknowledgements.
Variable JSON_parse : string → option JSValue.

(** X13: an acknowledgement whose channels list symbols is passed on, as a
    [subscription-confirmed] event carrying the parsed message, to the
    connected subscribers of each listed symbol, symbol by symbol in the
    order of the message; a socket that subscribes to several of the symbols
    gets the event once for each of them. *)
Theorem ack_routed_per_symbol
    (r : CoinbaseRelay) (data : string) (props : list (string * JSValue))
    (channels : list JSValue) (idss : list (list string)) :
  JSON_parse data = Some (JObj props) →
  own_property props "type" = JStr "subscriptions" →
  own_property props "channels" = JArr channels →
  Forall2 ack_channel channels idss →
  on_ws_message JSON_parse data r =
    (Return tt, r,
     concat ((λ productId,
                deliveries "subscription-confirmed" (JObj props) r
                  (subscribersOf r productId)) <$> concat idss)).
Proof.
  intros Hparse Htype Hchannels Hshape. rewrite on_ws_message_spec.
  unfold message_body. rewrite Hparse, bind_ret. cbn [get_property].
  rewrite bind_ret, Htype. cbn [strict_eq_str].
  rewrite bool_decide_eq_false_2 by done. rewrite !bind_ret. cbn [strict_eq_str].
  rewrite bool_decide_eq_true_2 by done.
  unfold handleSubscriptionMessage. cbn [get_property].
  rewrite bind_ret, Hchannels. cbn [truthy negb].
  rewrite (bind_run _ _ _ _ _ _ (flatMap_product_ids_ack _ _ r Hshape)), prepend_nil.
  rewrite (forEach_spec _ _ (λ key r, route key "subscription-confirmed" (JObj props) r))
    by (intros key; apply route_step_spec).
  by rewrite <- list_fmap_compose.
Qed.

(** X14: a message that parses to something other than [null] and is neither
    of type [ticker] nor of type [subscriptions] (an object with another or no
    [type], or a bare number, string, boolean or array) is ignored: nothing is
    emitted, nothing is logged, the relay is unchanged. *)
Theorem unrecognised_message_ignored (r : CoinbaseRelay) (data : string) (parsed : JSValue) :
  JSON_parse data = Some parsed →
  parsed ≠ JNull → parsed ≠ JUndefined →
  (∀ props, parsed = JObj props →
     own_property props "type" ≠ JStr "ticker" ∧
     own_property props "type" ≠ JStr "subscriptions") →
  on_ws_message JSON_parse data r = (Return tt, r, []).
Proof.
  intros Hparse Hnull Hundef Htype. rewrite on_ws_message_spec.
  unfold message_body. rewrite Hparse, bind_ret.
  assert (∃ type, get_property parsed "type" r = (Return type, r, []) ∧
                  strict_eq_str type "ticker" = false ∧
                  strict_eq_str type "subscriptions" = false) as (type & Hget & Ht & Hs).
  { destruct parsed as [| | | | | |props]; try done; try by exists JUndefined.
    exists (own_property props "type"). destruct (Htype props eq_refl) as [Ht Hs].
    split; [done|].
    destruct (own_property props "type") as [| | | |s| |]; try done.
    cbn [strict_eq_str]. rewrite !bool_decide_eq_false. split; congruence. }
  rewrite (bind_run _ _ _ _ _ _ Hget), prepend_nil, Ht, bind_ret.
  by rewrite (bind_run _ _ _ _ _ _ Hget), prepend_nil, Hs.
Qed.
End Acknowledgements.

Lemma ack_routed_per_symbol_witness :
  on_ws_message sample_parse_ack ack_text
      (after_events sample_parse sample_run initial) =
    (Return tt, after_events sample_parse sample_run initial,
     [SocketEmit "A" "subscription-confirmed" ack_value;
      SocketEmit "B" "subscription-confirmed" ack_value]).
Proof.
  rewrite (ack_routed_per_symbol sample_parse_ack
             (after_events sample_parse sample_run initial) ack_text
             [("type", JStr "subscriptions");
              ("channels",
               JArr [JObj [("name", JStr "ticker");
                           ("product_ids", JArr [JStr "ETH-USD"; JStr "BTC-USD"])]])]
             [JObj [("name", JStr "ticker");
                    ("product_ids", JArr [JStr "ETH-USD"; JStr "BTC-USD"])]]
             [["ETH-USD"; "BTC-USD"]]).
  - vm_compute. reflexivity.
  - reflexivity.
  - reflexivity.
  - reflexivity.
  - constructor; [|constructor]. eexists. split; reflexivity.
Defined.

Lemma unrecognised_message_ignored_witness :
  on_ws_message sample_parse_ack (object_text heartbeat)
      (after_events sample_parse sample_run initial) =
    (Return tt, after_events sample_parse sample_run initial, []).
Proof.
  apply (unrecognised_message_ignored sample_parse_ack _ _ (object_value heartbeat)).
  - reflexivity.
  - discriminate.
  - discriminate.
  - intros props Heq. injection Heq as <-. split; discriminate.
Defined.

(** ** The two builds of the message listener *)

Lemma emit_if_nonempty_js_spec subscribers event payload r :
  emit_if_nonempty_js subscribers event payload r =
    (Return tt, r, deliveries event payload r (default [] subscribers)).
Proof.
  unfold emit_if_nonempty_js. destruct subscribers as [ids|]; [|done].
  rewrite run_when. case_bool_decide as Hsize; simpl.
  - apply forEach_emit_to_spec.
  - destruct ids; [done|]. unfold JSSet.size in Hsize. simpl in Hsize. lia.
Qed.

Lemma emit_if_present_js_spec subscribers event payload r :
  emit_if_present_js subscribers event payload r =
    (Return tt, r, deliveries event payload r (default [] subscribers)).
Proof.
  unfold emit_if_present_js. destruct subscribers as [ids|]; [|done].
  apply forEach_emit_to_spec.
Qed.

Lemma route_step_js_spec key event payload r :
  (subscribers ← gets (λ r, map_get (subscriptions r) key);
   emit_if_present_js subscribers event payload) r =
  (Return tt, r, route key event payload r).
Proof. rewrite bind_gets. apply emit_if_present_js_spec. Qed.

Lemma try_catch_return {A : Type} (body : M A) handler r a r1 es :
  body r = (Return a, r1, es) → try_catch body handler r = (Return a, r1, es).
Proof. intros Hbody. unfold try_catch. by rewrite Hbody. Qed.

Lemma try_catch_log (body : M unit) r err r1 es :
  body r = (Throw err, r1, es) →
  try_catch body (λ err, perform (ConsoleError err)) r =
    (Return tt, r1, es ++ [ConsoleError err]).
Proof. intros Hbody. unfold try_catch. by rewrite Hbody. Qed.

Section TwoBuilds.
Variable JSON_parse : string → option JSValue.

Lemma bodies_agree data r :
  ∃ o o' es es',
    message_body JSON_parse data r = (o, r, es) ∧
    message_body_js JSON_parse data r = (o', r, es') ∧
    if ack_without_channels (JSON_parse data)
    then o = Return tt ∧ es = [] ∧ es' = [] ∧ ∃ err, o' = Throw err
    else es' = es ∧
         match o, o' with
         | Return _, Return _ | Throw _, Throw _ => True
         | _, _ => False
         end.
Proof.
  unfold message_body, message_body_js.
  destruct (JSON_parse data) as [parsed|]; [|by do 4 eexists].
  rewrite !bind_ret.
  destruct parsed as [| |b|x|s|items|props]; try by do 4 eexists.
  cbn [get_property ack_without_channels]. rewrite !bind_ret.
  destruct (strict_eq_str (own_property props "type") "ticker") eqn:Hticker.
  - assert (strict_eq_str (own_property props "type") "subscriptions" = false) as Hack.
    { destruct (own_property props "type"); try done. cbn [strict_eq_str] in *.
      apply bool_decide_eq_true in Hticker as ->. done. }
    rewrite Hack. cbn [andb]. rewrite !bind_assoc, !bind_ret.
    destruct (truthy (own_property props "product_id")) eqn:Hid.
    + unfold handleTickerMessage. cbn [get_property]. rewrite !bind_ret, Hid.
      cbn [negb]. rewrite !bind_gets, emit_if_nonempty_js_spec, emit_to_subscribers_spec.
      by do 4 eexists.
    + rewrite !bind_ret, Hack. by do 4 eexists.
  - rewrite !bind_ret.
    destruct (strict_eq_str (own_property props "type") "subscriptions") eqn:Hack;
      [|by do 4 eexists].
    cbn [andb]. unfold handleSubscriptionMessage. cbn [get_property]. rewrite !bind_ret.
    destruct (truthy (own_property props "channels")) eqn:Hchannels; cbn [negb].
    + destruct (own_property props "channels") as [| |b|x|s|items|cprops];
        try done; try by do 4 eexists.
      destruct (quiet_flatMap_product_ids items r) as [[ids|err] Hids].
      * rewrite !(bind_run _ _ _ _ _ _ Hids), !prepend_nil.
        rewrite (forEach_spec _ _
                   (λ key r, route key "subscription-confirmed" (JObj props) r))
          by (intros key; apply route_step_spec).
        rewrite (forEach_spec _ _
                   (λ key r, route key "subscription-confirmed" (JObj props) r))
          by (intros key; apply route_step_js_spec).
        by do 4 eexists.
      * rewrite !(bind_run_throw _ _ _ _ _ _ Hids). by do 4 eexists.
    + destruct (own_property props "channels") as [| |b|x|s|items|cprops];
        try done; do 4 eexists; split_and!; try done; by eexists.
Qed.

(** X15: the listener of [server.js] and the listener of [ws-socket.ts] return
    alike, leave the relay alike and emit the same events, with one
    exception: a message of type [subscriptions] whose [channels] is missing
    (or falsy) is dropped silently by [ws-socket.ts], while [server.js] runs
    into a [TypeError] on it and logs an error.  Apart from that the two
    differ at most in the text of a logged error. *)
Theorem builds_agree_except_bare_ack (r : CoinbaseRelay) (data : string) :
  let ts := on_ws_message JSON_parse data r in
  let js := on_ws_message_js JSON_parse data r in
  outcome js = outcome ts ∧ final js = final ts ∧
  if ack_without_channels (JSON_parse data)
  then effects ts = [] ∧ ∃ err, effects js = [ConsoleError err]
  else erase_log <$> effects js = erase_log <$> effects ts.
Proof.
  cbv zeta. unfold on_ws_message, on_ws_message_js.
  destruct (bodies_agree data r) as (o & o' & es & es' & Hts & Hjs & Hrel).
  destruct (ack_without_channels (JSON_parse data)).
  - destruct Hrel as (-> & -> & -> & err & ->).
    rewrite (try_catch_return _ _ _ _ _ _ Hts), (try_catch_log _ _ _ _ _ Hjs).
    split_and!; try done. by exists err.
  - destruct Hrel as [-> Hrel]. destruct o as [[]|err], o' as [[]|err']; try done.
    + by rewrite (try_catch_return _ _ _ _ _ _ Hts), (try_catch_return _ _ _ _ _ _ Hjs).
    + rewrite (try_catch_log _ _ _ _ _ Hts), (try_catch_log _ _ _ _ _ Hjs).
      unfold outcome, final, effects; simpl. split_and!; try done.
      by rewrite !fmap_app.
Qed.
End TwoBuilds.

(** ** Clients: the status on connect, and tickers from subscribe to unsubscribe *)

Section Clients.
Variable JSON_parse : string → option JSValue.

(** X16: a client that connects is sent one [connection-status] event whose
    [coinbaseConnected] tells whether the upstream socket is open at that
    moment: [true] right after the socket opened, [false] right after it
    closed; nothing is broadcast and the registry is not touched. *)
Theorem connection_status_snapshot (r : CoinbaseRelay) (ws : WebSocket) (socketId : string) :
  coinbaseWs r = Some ws →
  let opened := final (dispatch JSON_parse WsOpen r) in
  let closed := final (dispatch JSON_parse WsClose r) in
  effects (dispatch JSON_parse (Connection socketId) opened) =
    [SocketEmit socketId "connection-status" (connection_status true)] ∧
  effects (dispatch JSON_parse (Connection socketId) closed) =
    [SocketEmit socketId "connection-status" (connection_status false)] ∧
  effects (dispatch JSON_parse (Connection socketId) r) =
    [SocketEmit socketId "connection-status"
       (connection_status (bool_decide (readyState ws = OPEN)))] ∧
  same_registry (with_io_sockets (λ s, {[socketId]} ∪ s) r)
    (final (dispatch JSON_parse (Connection socketId) r)).
Proof.
  intros Hws. cbv zeta. cbn [dispatch]. unfold set_readyState, on_connection.
  rewrite !bind_modify, on_ws_open_spec, on_ws_close_spec. unfold final; simpl.
  mstep. unfold coinbase_open; simpl. rewrite Hws. simpl. done.
Qed.

(** X17: in a running relay, once a connected client has subscribed to a
    symbol, a ticker for that symbol is emitted to it exactly once, along with
    the other subscribers of the symbol; once it has unsubscribed, or has
    disconnected, a ticker for the symbol is not emitted to it at all. *)
Theorem tickers_follow_subscription
    (r : CoinbaseRelay) (socketId data : string) (props : list (string * JSValue))
    (productId : string) :
  reachable JSON_parse r →
  socketId ∈ io_sockets r →
  JSON_parse data = Some (JObj props) →
  own_property props "type" = JStr "ticker" →
  own_property props "product_id" = JStr productId →
  productId ≠ "" →
  let subscribed := final (dispatch JSON_parse (Subscribe socketId productId) r) in
  let unsubscribed := final (dispatch JSON_parse (Unsubscribe socketId productId) r) in
  let gone := final (dispatch JSON_parse (Disconnect socketId) r) in
  (effects (on_ws_message JSON_parse data subscribed) =
     (λ id, SocketEmit id "ticker" (JObj props)) <$> subscribersOf subscribed productId ∧
   NoDup (subscribersOf subscribed productId) ∧
   socketId ∈ subscribersOf subscribed productId) ∧
  (∀ event payload,
     SocketEmit socketId event payload ∉ effects (on_ws_message JSON_parse data unsubscribed)) ∧
  (∀ event payload,
     SocketEmit socketId event payload ∉ effects (on_ws_message JSON_parse data gone)).
Proof.
  intros Hreach Hio Hparse Htype Hid Hne. cbv zeta.
  assert (∀ r', reachable JSON_parse r' →
            effects (on_ws_message JSON_parse data r') =
              (λ id, SocketEmit id "ticker" (JObj props)) <$> subscribersOf r' productId ∧
            NoDup (subscribersOf r' productId)) as Hroute.
  { intros r' Hr'. destruct (reachable_relay_inv _ _ Hr') as (_ & Hwf & Hconn).
    rewrite on_ws_message_spec, (message_body_ticker _ _ _ _ _ Hparse Htype Hid Hne).
    rewrite deliveries_connected by apply Hconn.
    split; [done | by apply NoDup_subscribersOf]. }
  assert (∀ r', reachable JSON_parse r' → socketId ∉ subscribersOf r' productId →
            ∀ event payload,
              SocketEmit socketId event payload ∉ effects (on_ws_message JSON_parse data r'))
    as Hnone.
  { intros r' Hr' Hnot event payload. rewrite (proj1 (Hroute r' Hr')).
    intros (id & Heq & Hin)%list_elem_of_fmap. injection Heq as -> _ _. done. }
  split; [|split].
  - destruct (Hroute _ (reachable_step _ _ (Subscribe socketId productId) Hreach Hio))
      as [Heff Hnd].
    split_and!; [done|done|]. cbn [dispatch]. rewrite on_subscribe_spec.
    unfold final at 1; simpl. apply elem_of_subscribersOf_added. by left.
  - apply Hnone; [by apply (reachable_step _ _ (Unsubscribe socketId productId))|].
    cbn [dispatch]. rewrite on_unsubscribe_spec. unfold final; simpl.
    rewrite elem_of_subscribersOf_dropped. naive_solver.
  - pose proof (reachable_step _ _ (Disconnect socketId) Hreach Hio) as Hgone.
    apply Hnone; [done|].
    destruct (reachable_relay_inv _ _ Hgone) as (_ & _ & Hconn).
    intros Hin%Hconn. revert Hin. cbn [dispatch]. rewrite bind_modify.
    unfold on_disconnect. rewrite cleanupClient_spec. unfold final; simpl.
    destruct (dropped_all_frame socketId
                (productsOf (with_io_sockets (λ s, s ∖ {[socketId]}) r) socketId)
                (with_io_sockets (λ s, s ∖ {[socketId]}) r)) as (Hsockets & _).
    change (io_sockets (with_socketSubscriptions ?f ?y)) with (io_sockets y).
    rewrite Hsockets. simpl. rewrite elem_of_difference, elem_of_singleton. naive_solver.
Qed.
End Clients.

Lemma connection_status_snapshot_witness :
  effects (dispatch sample_parse (Connection "C")
             (final (dispatch sample_parse WsOpen initial))) =
    [SocketEmit "C" "connection-status" (connection_status true)].
Proof.
  apply (connection_status_snapshot sample_parse initial
           (mkWebSocket coinbase_url CONNECTING) "C").
  reflexivity.
Defined.

Lemma tickers_follow_subscription_witness :
  "B" ∈ subscribersOf
          (final (dispatch sample_parse (Subscribe "B" "ETH-USD")
                    (after_events sample_parse sample_run initial))) "ETH-USD" ∧
  SocketEmit "B" "ticker" (object_value eth_ticker) ∉
    effects (on_ws_message sample_parse (object_text eth_ticker)
               (final (dispatch sample_parse (Unsubscribe "B" "ETH-USD")
                         (after_events sample_parse sample_run initial)))).
Proof.
  destruct (tickers_follow_subscription sample_parse
              (after_events sample_parse sample_run initial) "B"
              (object_text eth_ticker) (prod_map id JStr <$> eth_ticker) "ETH-USD"
              reachable_sample_run) as ((_ & _ & Hin) & Hout & _).
  - replace (io_sockets _) with ({["A"; "B"]} : gset string) by (vm_compute; reflexivity).
    set_solver.
  - reflexivity.
  - reflexivity.
  - reflexivity.
  - done.
  - split; [done | apply Hout].
Defined.

Lemma reconnect_only_after_close_witness :
  reconnectAttempts initial < maxReconnectAttempts ∧
  5000 = reconnectDelay * 2 ^ reconnectAttempts initial.
Proof.
  apply (proj1 (reconnect_only_after_close sample_parse WsClose initial) 5000).
  replace (effects _) with
    [IoEmit "coinbase-status" (status_connected false); SetTimeout 5000]
    by (vm_compute; reflexivity).
  apply list_elem_of_further, list_elem_of_here.
Defined.
